(** * pyjira: the tree component of [pyjira/container.py]

    A shallow embedding of [TreeElement] and [TreeComponent] and the
    properties of the visible-node traversal, the navigation key bindings,
    the toggle, the mouse handler and the rendering.

    Python objects have identity and [_handle_enter] assigns to a field of
    the element object that the traversal generator yielded.  Element
    objects are therefore kept in a store indexed by references; a list of
    elements is a list of references, and the assignment is a store
    update. *)

From Stdlib Require Import List ZArith Bool Arith Lia String Ascii.
Import ListNotations.

Local Open Scope Z_scope.

(** ** Results of Python calls *)

(** The exceptions the component can raise by itself: [AttributeError]
    when [None.expanded] is accessed, and [RecursionError] when the nested
    generators of [_traverse_visible] exceed the interpreter's recursion
    limit. *)
Inductive exn : Type :=
| AttributeError
| RecursionError.

Inductive result (A : Type) : Type :=
| Ok (a : A)
| Raise (e : exn).

Arguments Ok {A} a.
Arguments Raise {A} e.

Definition result_bind {A B : Type} (r : result A) (k : A -> result B) : result B :=
  match r with
  | Ok a => k a
  | Raise e => Raise e
  end.

Definition result_map {A B : Type} (f : A -> B) (r : result A) : result B :=
  result_bind r (fun a => Ok (f a)).

(** ** Styled text *)

(** [StyleAndTextTuples] while it is being built: (style, text) pairs. *)
Definition StyleAndText : Type := (string * string)%type.

Definition newline : ascii := ascii_of_nat 10.

(** The Python literal for a one-character line break. *)
Definition nl : string := String newline EmptyString.

(** [class Drawable]: a payload that renders itself to styled text. *)
Class Drawable (T : Type) : Type :=
  render : T -> list StyleAndText.

(** ** The object store *)

Definition ref : Type := nat.

Section Tree.

Context {TEV : Type} {drawable : Drawable TEV}.

(** [@dataclass class TreeElement]: the children list holds references. *)
Record TreeElement : Type := mkTreeElement {
  value : TEV;
  children : list ref;
  expanded : bool
}.

(** Every reference points to an object. *)
Definition store : Type := ref -> TreeElement.

(** [element.expanded = b] for the object at [r]. *)
Definition assign_expanded (s : store) (r : ref) (b : bool) : store :=
  fun r' =>
    if Nat.eqb r' r
    then {| value := value (s r); children := children (s r); expanded := b |}
    else s r'.

(** The fields of a [TreeComponent] that the claims are about. *)
Record TreeComponent : Type := mkTreeComponent {
  values : list ref;
  _selected_index : Z
}.

(** The interpreter's recursion limit, counted in nested calls of
    [_traverse_visible]. *)
Variable recursion_limit : nat.

(** Class attributes that subclasses override ([StyledTreeComponent]). *)
Variable open_character : string.
Variable close_character : string.
Variable default_style : string.

(** *** [_traverse_visible] *)

(** The generator, run to completion: the list of yielded
    [(level, element)] pairs.  [depth] is the number of nested calls that
    are still allowed; every caller below either consumes the whole
    generator or stops at an element it already yielded, so within the
    limit the list says all there is. *)
Fixpoint traverse (depth : nat) (s : store) (elements : list ref) (level : nat)
  {struct depth} : result (list (nat * ref)) :=
  match depth with
  | O => Raise RecursionError
  | S depth' =>
    (fix loop (es : list ref) : result (list (nat * ref)) :=
       match es with
       | [] => Ok []
       | e :: es' =>
         result_bind
           (if expanded (s e)
            then traverse depth' s (children (s e)) (S level)
            else Ok [])
           (fun below =>
              result_bind (loop es')
                (fun rest => Ok ((level, e) :: below ++ rest)))
       end) elements
  end.

Definition _traverse_visible (s : store) (elements : list ref) (level : nat)
  : result (list (nat * ref)) :=
  traverse recursion_limit s elements level.

(** *** [_number_of_visible_elements] *)

Definition _number_of_visible_elements (s : store) (self : TreeComponent) : result Z :=
  result_map (fun l => Z.of_nat (List.length l)) (_traverse_visible s (values self) 0).

(** *** [_find_expanded_by_index] *)

(** The loop over the generator; falling off the end returns [None]. *)
Fixpoint find_loop (i : Z) (index : Z) (visible : list (nat * ref)) : option ref :=
  match visible with
  | [] => None
  | (_, element) :: visible' =>
    if Z.eqb i index then Some element else find_loop i (index + 1) visible'
  end.

Definition _find_expanded_by_index (s : store) (self : TreeComponent) (i : Z)
  : result (option ref) :=
  result_map (find_loop i 0) (_traverse_visible s (values self) 0).

Definition get_selected_element (s : store) (self : TreeComponent) : result (option ref) :=
  _find_expanded_by_index s self (_selected_index self).

(** *** State and exceptions *)

(** What a method of the component can read and write: the element
    objects and the component's own fields. *)
Record world : Type := mkWorld {
  objects : store;
  self : TreeComponent
}.

(** A method call either returns or raises, and leaves a world behind in
    both cases: assignments made before an exception stay. *)
Definition M (A : Type) : Type := world -> result A * world.

Definition ret {A : Type} (a : A) : M A := fun w => (Ok a, w).

Definition raise {A : Type} (e : exn) : M A := fun w => (Raise e, w).

Definition bind {A B : Type} (m : M A) (k : A -> M B) : M B :=
  fun w =>
    match m w with
    | (Ok a, w') => k a w'
    | (Raise e, w') => (Raise e, w')
    end.

Local Notation "x <- m ;; k" := (bind m (fun x => k))
  (at level 61, m at next level, right associativity).
Local Notation "m ;;; k" := (bind m (fun _ => k))
  (at level 61, right associativity).

(** A call that reads the world and changes nothing. *)
Definition query {A : Type} (f : store -> TreeComponent -> result A) : M A :=
  fun w => (f (objects w) (self w), w).

(** [self._selected_index = i] *)
Definition set_selected_index (i : Z) : M unit :=
  fun w => (Ok tt, mkWorld (objects w) (mkTreeComponent (values (self w)) i)).

(** [self.values = values] *)
Definition set_values_field (vs : list ref) : M unit :=
  fun w => (Ok tt, mkWorld (objects w) (mkTreeComponent vs (_selected_index (self w)))).

(** [element.expanded = not element.expanded]; the read of
    [None.expanded] is what raises. *)
Definition flip_expanded (element : option ref) : M unit :=
  match element with
  | None => raise AttributeError
  | Some r =>
    fun w =>
      (Ok tt,
       mkWorld (assign_expanded (objects w) r (negb (expanded (objects w r)))) (self w))
  end.

(** *** [set_values] *)

Definition set_values (vs : list ref) : M unit :=
  set_values_field vs ;;;
  set_selected_index 0.

(** *** The key bindings *)

(** [event.app.layout.current_window.render_info]: [None] before the first
    rendering, else it carries the displayed lines. *)
Record WindowRenderInfo : Type := mkWindowRenderInfo {
  displayed_lines : list nat
}.

Record KeyPressEvent : Type := mkKeyPressEvent {
  render_info : option WindowRenderInfo
}.

Definition _up (event : KeyPressEvent) : M unit :=
  fun w => set_selected_index (Z.max 0 (_selected_index (self w) - 1)) w.

Definition _down (event : KeyPressEvent) : M unit :=
  n <- query _number_of_visible_elements ;;
  fun w => set_selected_index (Z.min (n - 1) (_selected_index (self w) + 1)) w.

Definition _pageup (event : KeyPressEvent) : M unit :=
  match render_info event with
  | Some info =>
    fun w =>
      set_selected_index
        (Z.max 0 (_selected_index (self w) - Z.of_nat (List.length (displayed_lines info)))) w
  | None => ret tt
  end.

Definition _pagedown (event : KeyPressEvent) : M unit :=
  match render_info event with
  | Some info =>
    n <- query _number_of_visible_elements ;;
    fun w =>
      set_selected_index
        (Z.min (n - 1)
               (_selected_index (self w) + Z.of_nat (List.length (displayed_lines info)))) w
  | None => ret tt
  end.

(** *** [_handle_enter] *)

Definition _handle_enter : M unit :=
  element <- query get_selected_element ;;
  flip_expanded element.

(** [_click], bound to enter, space and right. *)
Definition _click (event : KeyPressEvent) : M unit := _handle_enter.

(** The keys that [__init__] binds, and their handlers. *)
Inductive Key : Type :=
| key_up
| key_down
| key_pageup
| key_pagedown
| key_enter
| key_space
| key_right.

Definition key_bindings (key : Key) : KeyPressEvent -> M unit :=
  match key with
  | key_up => _up
  | key_down => _down
  | key_pageup => _pageup
  | key_pagedown => _pagedown
  | key_enter | key_space | key_right => _click
  end.

(** *** [_get_text_fragments] *)

Inductive MouseEventType : Type :=
| MOUSE_UP
| MOUSE_DOWN
| SCROLL_UP
| SCROLL_DOWN.

(** [mouse_event.event_type] and [mouse_event.position.y]. *)
Record MouseEvent : Type := mkMouseEvent {
  event_type : MouseEventType;
  position_y : Z
}.

Definition mouse_handler (mouse_event : MouseEvent) : M unit :=
  match event_type mouse_event with
  | MOUSE_UP =>
    set_selected_index (position_y mouse_event) ;;;
    _handle_enter
  | _ => ret tt
  end.

(** A fragment of the returned list: style, text and mouse handler. *)
Definition Fragment : Type := (string * string * (MouseEvent -> M unit))%type.

(** The body of the loop over the visible elements: the appends to
    [result] and the increment of [current_index]. *)
Definition row_step (s : store) (selected_index : Z)
  (acc : list StyleAndText * Z) (visit : nat * ref) : list StyleAndText * Z :=
  let '(result, current_index) := acc in
  let '(level, element) := visit in
  let style := EmptyString in
  let result := result ++ repeat (style, "   "%string) level in
  let selected := Z.eqb current_index selected_index in
  let result := result ++ [(style, open_character)] in
  let result :=
    if selected then result ++ [("[SetCursorPosition]"%string, EmptyString)] else result in
  let result :=
    match children (s element) with
    | _ :: _ =>
      if expanded (s element)
      then result ++ [(style, "-"%string)]
      else result ++ [(style, "+"%string)]
    | [] => result ++ [(style, " "%string)]
    end in
  let result := result ++ [(style, close_character)] in
  let result := result ++ [(default_style, " "%string)] in
  let result := result ++ render (value (s element)) in
  let result := result ++ [(EmptyString, nl)] in
  (result, current_index + 1).

Definition _get_text_fragments (s : store) (self : TreeComponent) : result (list Fragment) :=
  result_bind (_traverse_visible s (values self) 0)
    (fun visible =>
       let '(result, _) := fold_left (row_step s (_selected_index self)) visible ([], 0) in
       let result := map (fun f : StyleAndText => (fst f, snd f, mouse_handler)) result in
       Ok (if Nat.ltb 0 (List.length result) then removelast result else result)).

End Tree.

Arguments TreeElement TEV : clear implicits.
Arguments store TEV : clear implicits.
Arguments world TEV : clear implicits.
Arguments M TEV A : clear implicits.
Arguments Fragment TEV : clear implicits.

(** ** Forests *)

(** The element objects a component is given form a forest: every element
    owns its children list, and [_transform_to_view_data] builds a fresh
    [TreeElement] per issue and per sub-task.  A forest is described by a
    tree of nodes, each naming the reference of its element object; the
    store holds a forest when every node's object has the node's fields and
    no object belongs to two nodes. *)

Section Forest.

Context {TEV : Type}.

#[local] Unset Elimination Schemes.
Inductive tree : Type :=
| Node (r : ref) (v : TEV) (cs : list tree) (e : bool).
#[local] Set Elimination Schemes.

Definition forest : Type := list tree.

Definition root (t : tree) : ref := match t with Node r _ _ _ => r end.
Definition payload (t : tree) : TEV := match t with Node _ v _ _ => v end.
Definition kids (t : tree) : forest := match t with Node _ _ cs _ => cs end.
Definition is_expanded (t : tree) : bool := match t with Node _ _ _ e => e end.

(** The object of a node. *)
Definition element_of (t : tree) : TreeElement TEV :=
  {| value := payload t; children := map root (kids t); expanded := is_expanded t |}.

(** All nodes of a tree, the tree's own node first. *)
Fixpoint nodes (t : tree) : list tree :=
  match t with
  | Node r v cs e => Node r v cs e :: flat_map nodes cs
  end.

Definition nodes_of (f : forest) : list tree := flat_map nodes f.

Definition refs_of (f : forest) : list ref := map root (nodes_of f).

(** Nesting depth: a leaf has height 1, the empty forest height 0. *)
Fixpoint height (t : tree) : nat :=
  match t with
  | Node _ _ cs _ => S (fold_right (fun c m => Nat.max (height c) m) O cs)
  end.

Definition height_forest (f : forest) : nat :=
  fold_right (fun c m => Nat.max (height c) m) O f.

(** Every node's object is in the store with the node's fields. *)
Definition stored (s : store TEV) (f : forest) : Prop :=
  Forall (fun n => s (root n) = element_of n) (nodes_of f).

(** No two references of the list are equal. *)
Fixpoint distinct (rs : list ref) : bool :=
  match rs with
  | [] => true
  | r :: rs' => negb (existsb (Nat.eqb r) rs') && distinct rs'
  end.

(** No element object occurs at two places of the forest. *)
Definition separate (f : forest) : Prop := distinct (refs_of f) = true.

(** The component's [values] are the roots of the forest [f], held by the
    store. *)
Definition represents (w : world TEV) (f : forest) : Prop :=
  values (self w) = map root f /\ stored (objects w) f /\ separate f.

(** The world after [element.expanded = not element.expanded] on [r]. *)
Definition toggled (w : world TEV) (r : ref) : world TEV :=
  mkWorld (assign_expanded (objects w) r (negb (expanded (objects w r)))) (self w).

(** A store for a forest: the object of the first node with the asked
    reference, [other] elsewhere. *)
Definition store_of (f : forest) (other : TreeElement TEV) : store TEV :=
  fun r =>
    match find (fun n => Nat.eqb (root n) r) (nodes_of f) with
    | Some n => element_of n
    | None => other
    end.

(** *** The visible sequence of a forest *)

Fixpoint visible (level : nat) (t : tree) : list (nat * ref) :=
  match t with
  | Node r _ cs e =>
    (level, r) :: (if e then flat_map (visible (S level)) cs else [])
  end.

Definition visible_forest (level : nat) (f : forest) : list (nat * ref) :=
  flat_map (visible level) f.

(** The forest after the [expanded] flag of the object [r] was negated. *)
Fixpoint toggle (r : ref) (t : tree) : tree :=
  match t with
  | Node r' v cs e => Node r' v (map (toggle r) cs) (if Nat.eqb r' r then negb e else e)
  end.

Definition toggle_forest (r : ref) (f : forest) : forest := map (toggle r) f.

(** *** The traversal as the specification words it *)

(** Depth-first pre-order over all nodes, whatever their flags: every node
    with its depth (0 at the roots, one more per nesting level) and with
    whether all the nodes above it are expanded. *)
Fixpoint spec_preorder (depth : nat) (reached : bool) (t : tree)
  : list (nat * ref * bool) :=
  match t with
  | Node r _ cs e =>
    (depth, r, reached) :: flat_map (spec_preorder (S depth) (reached && e)) cs
  end.

(** The visible sequence of the specification: the pre-order sequence
    restricted to the nodes below expanded nodes only. *)
Definition spec_visible_sequence (f : forest) : list (nat * ref) :=
  map fst (filter snd (flat_map (spec_preorder O true) f)).

End Forest.

Arguments tree TEV : clear implicits.
Arguments forest TEV : clear implicits.

(** ** Rendered text *)

Section Text.

Context {TEV : Type}.

Fixpoint count_newlines (t : string) : nat :=
  match t with
  | EmptyString => O
  | String c t' => (if Ascii.eqb c newline then 1 else 0) + count_newlines t'
  end.

Fixpoint last_char (t : string) : option ascii :=
  match t with
  | EmptyString => None
  | String c t' =>
    match last_char t' with
    | None => Some c
    | Some c' => Some c'
    end
  end.

(** The text of a stream of fragments, styles and handlers dropped. *)
Definition text_of (fragments : list (Fragment TEV)) : string :=
  fold_right (fun fragment t => append (snd (fst fragment)) t) EmptyString fragments.

Definition plain_text (fragments : list StyleAndText) : string :=
  fold_right (fun fragment t => append (snd fragment) t) EmptyString fragments.

(** A payload keeps to its row when its rendering has no line break. *)
Definition one_line (fragments : list StyleAndText) : Prop :=
  count_newlines (plain_text fragments) = O.

(** The rows of a rendered stream are its newline-separated lines; the
    empty stream has no row. *)
Definition rows (fragments : list (Fragment TEV)) : nat :=
  match fragments with
  | [] => O
  | _ :: _ => S (count_newlines (text_of fragments))
  end.

Definition ends_in_newline (t : string) : Prop := last_char t = Some newline.

(** The specification's clamp of an index to the visible range. *)
Definition spec_clamp (i n : Z) : Z := Z.max 0 (Z.min i (n - 1)).

End Text.

(** ** The rows of the specification *)

Section Rows.

Context {TEV : Type} {drawable : Drawable TEV}.

Variable open_character : string.
Variable close_character : string.
Variable default_style : string.

(** The glyph between the open and the close character. *)
Definition spec_marker (has_children is_open : bool) : string :=
  if has_children then (if is_open then "-" else "+")%string else " "%string.

Definition has_children (element : TreeElement TEV) : bool :=
  match children element with
  | [] => false
  | _ :: _ => true
  end.

(** One row without its line break: indentation, open character, cursor
    mark on the selected row, marker, close character, a blank, and the
    payload's own rendering. *)
Definition spec_row (selected : bool) (level : nat) (element : TreeElement TEV)
  : list StyleAndText :=
  repeat (EmptyString, "   "%string) level
  ++ [(EmptyString, open_character)]
  ++ (if selected then [("[SetCursorPosition]"%string, EmptyString)] else [])
  ++ [(EmptyString, spec_marker (has_children element) (expanded element))]
  ++ [(EmptyString, close_character); (default_style, " "%string)]
  ++ render (value element).

(** The rows of a visible sequence, numbered from [index]. *)
Fixpoint spec_rows (s : store TEV) (selected_index : Z) (index : Z)
  (visible : list (nat * ref)) : list (list StyleAndText) :=
  match visible with
  | [] => []
  | (level, element) :: visible' =>
    spec_row (Z.eqb index selected_index) level (s element)
    :: spec_rows s selected_index (index + 1) visible'
  end.

(** The fragment appended after a row. *)
Definition line_break : StyleAndText := (EmptyString, nl).

(** Rows with a line-break fragment between each two. *)
Fixpoint join_rows (rows : list (list StyleAndText)) : list StyleAndText :=
  match rows with
  | [] => []
  | [row] => row
  | row :: rows' => row ++ line_break :: join_rows rows'
  end.

(** The mouse handler put on every fragment. *)
Definition with_handler (recursion_limit : nat) (fragments : list StyleAndText)
  : list (Fragment TEV) :=
  map (fun f : StyleAndText => (fst f, snd f, mouse_handler recursion_limit)) fragments.

End Rows.

(** ** Concrete components *)

Module Scenario.

(** A payload that is its own text, in one fragment. *)
#[export] Instance text_drawable : Drawable string :=
  fun text => [("class:issue"%string, text)].

(** CPython's default recursion limit. *)
Definition python_recursion_limit : nat := 1000.

(** [forest = [A(expanded=false, children=[A1, A2]), B(no children)]] *)
Definition A1 : tree string := Node 1%nat "A1"%string [] false.
Definition A2 : tree string := Node 2%nat "A2"%string [] false.
Definition A : tree string := Node 0%nat "A"%string [A1; A2] false.
Definition B : tree string := Node 3%nat "B"%string [] false.
Definition board : forest string := [A; B].

Definition board_store : store string := store_of board (element_of B).

Definition board_world (selected_index : Z) : world string :=
  mkWorld board_store (mkTreeComponent (map root board) selected_index).

(** The component [StyledTreeComponent(values=[])] of the dashboard. *)
Definition empty_world (selected_index : Z) : world string :=
  mkWorld board_store (mkTreeComponent [] selected_index).

(** A payload drawn on two lines. *)
Definition two_lines : forest string := [Node 0%nat (append "a"%string (append nl "b"%string)) [] false].

(** A payload whose text ends with a line break. *)
Definition trailing_break : forest string := [Node 0%nat (append "x"%string nl) [] false].

Definition world_of (f : forest string) (selected_index : Z) : world string :=
  mkWorld (store_of f (element_of B)) (mkTreeComponent (map root f) selected_index).

(** The fragments of [StyledTreeComponent] for the component [c]. *)
Definition styled_fragments (s : store string) (c : TreeComponent)
  : result (list (Fragment string)) :=
  _get_text_fragments python_recursion_limit "[" "]" "class:checkbox" s c.

Definition a_key_press : KeyPressEvent := mkKeyPressEvent None.

Definition a_page_key_press : KeyPressEvent :=
  mkKeyPressEvent (Some (mkWindowRenderInfo [0; 1; 2]%nat)).

End Scenario.

(** ** Key presses in a row *)

Section Presses.

Context {TEV : Type}.

(** The handlers of a sequence of key presses, run one after the other;
    an exception ends the run. *)
Fixpoint press_all (recursion_limit : nat) (presses : list (Key * KeyPressEvent))
  : M TEV unit :=
  match presses with
  | [] => ret tt
  | (key, event) :: presses' =>
    bind (key_bindings recursion_limit key event)
         (fun _ => press_all recursion_limit presses')
  end.

(** The keys that move the selection. *)
Definition moves_selection (key : Key) : bool :=
  match key with
  | key_up | key_down | key_pageup | key_pagedown => true
  | key_enter | key_space | key_right => false
  end.

End Presses.


(** ** The helpers of the containers *)

(** The exceptions of the functions below. *)
Module Py.

Inductive error : Type :=
| KeyError (key : string)
| TypeError
| ValueError
| AttributeError
| RecursionError.

Inductive outcome (A : Type) : Type :=
| Return (a : A)
| Throw (e : error).

Arguments Return {A} a.
Arguments Throw {A} e.

End Py.

Section Intersperse.

Context {A : Type}.

(** [l * n] on lists: a count below 1 gives the empty list. *)
Definition list_times (l : list A) (n : Z) : list A :=
  List.concat (repeat l (Z.to_nat n)).

(** The positions 0, 2, 4, ... of [result] overwritten by [values]. *)
Fixpoint put_every_second (result values : list A) : list A :=
  match result, values with
  | _ :: x :: result', v :: values' => v :: x :: put_every_second result' values'
  | [_], v :: _ => [v]
  | _, _ => result
  end.

(** [result[0::2] = values]: an extended slice takes exactly as many
    values as it has positions. *)
Definition assign_every_second (result values : list A) : Py.outcome (list A) :=
  if Nat.eqb (List.length values) (Nat.div2 (S (List.length result)))
  then Py.Return (put_every_second result values)
  else Py.Throw Py.ValueError.

Definition _intersperse (lst : list A) (item : A) : Py.outcome (list A) :=
  let result := list_times [item] (Z.of_nat (List.length lst) * 2 - 1) in
  assign_every_second result lst.

End Intersperse.

(** ** [pyjira/render.py] *)

Definition py_len (text : string) : Z := Z.of_nat (String.length text).

(** [text[:stop]]: a negative [stop] counts from the end. *)
Definition slice_until (text : string) (stop : Z) : string :=
  let stop := if Z.ltb stop 0 then Z.max 0 (stop + py_len text) else Z.min stop (py_len text) in
  substring 0 (Z.to_nat stop) text.

Definition text_max_length (text : string) (max : Z) : string :=
  if Z.gtb (py_len text) max
  then append (slice_until text (max - 3)) "..."
  else text.


(** ** [pyjira/client.py] and the loader of [jira_cli.py] *)

Module Client.

Section Json.

(** The numbers of a response; nothing below computes with them. *)
Context {number : Type}.

(** What [response.json()] returns: [None], booleans, numbers, strings,
    lists and dicts; the members of a dict have distinct keys. *)
#[local] Unset Elimination Schemes.
Inductive json : Type :=
| JNull
| JBool (b : bool)
| JNumber (n : number)
| JString (s : string)
| JList (items : list json)
| JObject (members : list (string * json)).
#[local] Set Elimination Schemes.

Definition outcome_bind {X Y : Type} (o : Py.outcome X) (k : X -> Py.outcome Y)
  : Py.outcome Y :=
  match o with
  | Py.Return x => k x
  | Py.Throw e => Py.Throw e
  end.

Definition lookup (key : string) (members : list (string * json)) : option json :=
  match find (fun member => String.eqb (fst member) key) members with
  | Some member => Some (snd member)
  | None => None
  end.

(** [x[key]] with a string key: only a dict can be subscripted that way. *)
Definition subscript (x : json) (key : string) : Py.outcome json :=
  match x with
  | JObject members =>
    match lookup key members with
    | Some v => Py.Return v
    | None => Py.Throw (Py.KeyError key)
    end
  | _ => Py.Throw Py.TypeError
  end.

(** [x.get(key, default)]: only a dict has [get]. *)
Definition get (x : json) (key : string) (default : json) : Py.outcome json :=
  match x with
  | JObject members =>
    match lookup key members with
    | Some v => Py.Return v
    | None => Py.Return default
    end
  | _ => Py.Throw Py.AttributeError
  end.

(** [for element in x]: the items of a list, the keys of a dict, the
    characters of a string. *)
Definition iterate (x : json) : Py.outcome (list json) :=
  match x with
  | JList items => Py.Return items
  | JObject members => Py.Return (map (fun member => JString (fst member)) members)
  | JString s =>
    Py.Return (map (fun c => JString (String c EmptyString)) (list_ascii_of_string s))
  | _ => Py.Throw Py.TypeError
  end.

(** Nesting depth of lists and dicts. *)
Fixpoint json_height (x : json) : nat :=
  match x with
  | JList items => S (fold_right (fun v m => Nat.max (json_height v) m) O items)
  | JObject members =>
    S (fold_right (fun member m => Nat.max (json_height (snd member)) m) O members)
  | _ => O
  end.

(** *** The dataclasses *)

Record JiraStatus : Type := mkJiraStatus {
  name : json;
  state : json
}.

(** [JiraUser.id] and [JiraUser.name]. *)
Record JiraUser : Type := mkJiraUser {
  user_id : json;
  user_name : json
}.

#[local] Unset Elimination Schemes.
Inductive JiraIssue : Type :=
| mkJiraIssue (id internal_id summary issue_type : json) (status : JiraStatus)
    (priority : json) (description : option json)
    (subtasks : option (list JiraIssue)) (parent : option JiraIssue)
    (assignee creator : option JiraUser).
#[local] Set Elimination Schemes.

Definition id (issue : JiraIssue) : json :=
  match issue with mkJiraIssue id _ _ _ _ _ _ _ _ _ _ => id end.

(** *** [build_summary_jira_issue] *)

(** The dict of [_build_summary_jira_issue_arguments], in the order its
    entries are evaluated, passed to the constructor; the fields it does
    not name keep their default [None]. *)
Definition build_summary_jira_issue (issue : json) : Py.outcome JiraIssue :=
  outcome_bind (subscript issue "fields") (fun fields =>
  outcome_bind (subscript issue "key") (fun key =>
  outcome_bind (subscript issue "id") (fun internal =>
  outcome_bind (subscript fields "summary") (fun summary =>
  outcome_bind (subscript fields "issuetype") (fun issuetype =>
  outcome_bind (subscript issuetype "name") (fun issue_type =>
  outcome_bind (subscript fields "priority") (fun priority =>
  outcome_bind (subscript priority "name") (fun priority_name =>
  outcome_bind (subscript fields "status") (fun status =>
  outcome_bind (subscript status "name") (fun status_name =>
  outcome_bind (subscript fields "status") (fun status' =>
  outcome_bind (subscript status' "statusCategory") (fun category =>
  outcome_bind (subscript category "key") (fun status_state =>
  Py.Return
    (mkJiraIssue key internal summary issue_type
       (mkJiraStatus status_name status_state) priority_name
       None None None None None)))))))))))))).

(** *** The payload of the tree *)

(** [@dataclass class JiraSummaryDrawable(Drawable)] *)
Record JiraSummaryDrawable : Type := mkJiraSummaryDrawable {
  issue : JiraIssue
}.

Definition _issue_to_view (element : json) : Py.outcome JiraSummaryDrawable :=
  outcome_bind (build_summary_jira_issue element)
    (fun built => Py.Return (mkJiraSummaryDrawable built)).

(** *** [_transform_to_view_data] *)

(** The element objects and the next reference to be given out: a new
    object is no object that exists. *)
Record heap : Type := mkHeap {
  cells : store JiraSummaryDrawable;
  next : ref
}.

Definition L (X : Type) : Type := heap -> Py.outcome X * heap.

Definition L_ret {X : Type} (x : X) : L X := fun h => (Py.Return x, h).

Definition L_bind {X Y : Type} (m : L X) (k : X -> L Y) : L Y :=
  fun h =>
    match m h with
    | (Py.Return x, h') => k x h'
    | (Py.Throw e, h') => (Py.Throw e, h')
    end.

Definition L_lift {X : Type} (o : Py.outcome X) : L X := fun h => (o, h).

(** [TreeElement(value=..., children=..., expanded=...)] *)
Definition new_element (element : TreeElement JiraSummaryDrawable) : L ref :=
  fun h =>
    (Py.Return (next h),
     mkHeap (fun r => if Nat.eqb r (next h) then element else cells h r) (S (next h))).

(** [depth] is the number of nested calls that are still allowed. *)
Fixpoint transform (depth : nat) (raw_data : json) {struct depth} : L (list ref) :=
  match depth with
  | O => L_lift (Py.Throw Py.RecursionError)
  | S depth' =>
    L_bind (L_lift (iterate raw_data)) (fun elements =>
    (fix loop (elements : list json) (view_data : list ref) : L (list ref) :=
       match elements with
       | [] => L_ret view_data
       | element :: elements' =>
         L_bind (L_lift (_issue_to_view element)) (fun value =>
         L_bind (L_lift (subscript element "fields")) (fun fields =>
         L_bind (L_lift (get fields "subtasks" (JList []))) (fun subtasks =>
         L_bind (transform depth' subtasks) (fun children =>
         L_bind (new_element (mkTreeElement value children false)) (fun created =>
         loop elements' (view_data ++ [created]))))))
       end) elements [])
  end.

Definition _transform_to_view_data (recursion_limit : nat) (raw_data : json) : L (list ref) :=
  transform recursion_limit raw_data.

(** The loop of [transform] over the elements, by its name. *)
Fixpoint transform_loop (depth' : nat) (elements : list json) (view_data : list ref)
  : L (list ref) :=
  match elements with
  | [] => L_ret view_data
  | element :: elements' =>
    L_bind (L_lift (_issue_to_view element)) (fun value =>
    L_bind (L_lift (subscript element "fields")) (fun fields =>
    L_bind (L_lift (get fields "subtasks" (JList []))) (fun subtasks =>
    L_bind (transform depth' subtasks) (fun children =>
    L_bind (new_element (mkTreeElement value children false)) (fun created =>
    transform_loop depth' elements' (view_data ++ [created]))))))
  end.

(** *** The dashboard *)

(** The tree of the dashboard and the objects there are. *)
Record dashboard : Type := mkDashboard {
  board_tree : TreeComponent;
  memory : heap
}.

(** The body of [load] once the response [data] of the search has arrived:
    [_load_data] transforms [data["issues"]], then [tree.set_values]. *)
Definition load (recursion_limit : nat) (data : json) (d : dashboard)
  : Py.outcome unit * dashboard :=
  match L_bind (L_lift (subscript data "issues"))
          (_transform_to_view_data recursion_limit) (memory d) with
  | (Py.Return view_data, h) =>
    (Py.Return tt,
     mkDashboard (self (snd (set_values view_data (mkWorld (cells h) (board_tree d))))) h)
  | (Py.Throw e, h) => (Py.Throw e, mkDashboard (board_tree d) h)
  end.

(** The argument of [_load_issue_details] in [show_issue_details]:
    [tree.get_selected_element().value.issue.id]. *)
Definition selected_issue_id (recursion_limit : nat) (d : dashboard) : result json :=
  result_bind (get_selected_element recursion_limit (cells (memory d)) (board_tree d))
    (fun element =>
       match element with
       | None => Raise AttributeError
       | Some r => Ok (id (issue (value (cells (memory d) r))))
       end).

(** The forest [f] was built between the heaps [h] and [h']: it is stored
    in [h'], separate, made of objects created in between, and the objects
    of [h] are as they were. *)
Definition builds (h h' : heap) (f : forest JiraSummaryDrawable) : Prop :=
  stored (cells h') f /\
  separate f /\
  (forall r, In r (refs_of f) -> (next h <= r < next h')%nat) /\
  (forall r, (r < next h)%nat -> cells h' r = cells h r) /\
  (next h <= next h')%nat.

(** *** Responses that load *)

(** An issue of a response loads when the summary fields are there and
    its sub-tasks, a list when given, load as well. *)
#[local] Unset Elimination Schemes.
Inductive loads : json -> Prop :=
| loads_issue (element fields : json) (built : JiraIssue) (items : list json) :
    build_summary_jira_issue element = Py.Return built ->
    subscript element "fields" = Py.Return fields ->
    get fields "subtasks" (JList []) = Py.Return (JList items) ->
    Forall loads items ->
    loads element.

(** The tree built for an issue: its payload is the summary issue, it is
    collapsed, and its children are the trees of the sub-tasks. *)
Inductive mirrors : json -> tree JiraSummaryDrawable -> Prop :=
| mirrors_issue (element fields : json) (built : JiraIssue) (items : list json)
    (r : ref) (cs : forest JiraSummaryDrawable) :
    build_summary_jira_issue element = Py.Return built ->
    subscript element "fields" = Py.Return fields ->
    get fields "subtasks" (JList []) = Py.Return (JList items) ->
    Forall2 mirrors items cs ->
    mirrors element (Node r (mkJiraSummaryDrawable built) cs false).
#[local] Set Elimination Schemes.

End Json.

Arguments json number : clear implicits.
Arguments JiraStatus number : clear implicits.
Arguments JiraUser number : clear implicits.
Arguments JiraIssue number : clear implicits.
Arguments JiraSummaryDrawable number : clear implicits.
Arguments heap number : clear implicits.
Arguments L number X : clear implicits.
Arguments dashboard number : clear implicits.

End Client.


(** ** A response of the search *)

Module LoaderScenario.

Import Client.

Definition named (text : string) : json Z := JObject [("name"%string, JString text)].

(** The fields of an issue: summary, type, priority, status and, when
    given, the sub-tasks. *)
Definition fields_of (summary : string) (subtasks : option (list (json Z))) : json Z :=
  JObject
    ([("summary"%string, JString summary);
      ("issuetype"%string, named "Story");
      ("priority"%string, named "High");
      ("status"%string,
       JObject [("name"%string, JString "Open");
                ("statusCategory"%string, JObject [("key"%string, JString "new")])])]
     ++ match subtasks with
        | Some items => [("subtasks"%string, JList items)]
        | None => []
        end).

Definition sub_task : json Z :=
  JObject [("key"%string, JString "PJ-2"); ("id"%string, JString "10002");
           ("fields"%string, fields_of "Child" None)].

Definition story : json Z :=
  JObject [("key"%string, JString "PJ-1"); ("id"%string, JString "10001");
           ("fields"%string, fields_of "Parent" (Some [sub_task]))].

Definition response : json Z := JObject [("issues"%string, JList [story])].

Definition no_issue : JiraIssue Z :=
  mkJiraIssue JNull JNull JNull JNull (mkJiraStatus JNull JNull) JNull
    None None None None None.

(** The dashboard before the first load: [StyledTreeComponent(values=[])]
    and no element objects. *)
Definition at_start : dashboard Z :=
  mkDashboard (mkTreeComponent [] 0)
    (mkHeap (fun _ => mkTreeElement (mkJiraSummaryDrawable no_issue) [] false) O).

End LoaderScenario.


(** ** The indentation of a sequence of rows *)

(** From one entry to the next the depth grows by one at most, starting
    after an entry of depth [previous]. *)
Fixpoint stepwise (previous : nat) (visible : list (nat * ref)) : Prop :=
  match visible with
  | [] => True
  | (depth, _) :: visible' => (depth <= S previous)%nat /\ stepwise depth visible'
  end.


(** * Properties *)

Section Facts.

Context {TEV : Type}.

Implicit Types (t : tree TEV) (f : forest TEV) (s : store TEV) (r : ref).

(** Induction over a tree with the property available for all children. *)
Lemma tree_ind (P : tree TEV -> Prop) :
  (forall r v cs e, Forall P cs -> P (Node r v cs e)) ->
  forall t, P t.
Proof.
  intros step. fix IH 1. intros [r v cs e]. apply step.
  induction cs as [|c cs' IHcs]; constructor.
  - apply IH.
  - exact IHcs.
Qed.

(** The same over a forest. *)
Lemma forest_ind (P : tree TEV -> Prop) (Q : forest TEV -> Prop) :
  (forall r v cs e, Q cs -> P (Node r v cs e)) ->
  Q [] ->
  (forall t f, P t -> Q f -> Q (t :: f)) ->
  forall f, Q f.
Proof.
  intros Hnode Hnil Hcons.
  assert (HP : forall t, P t).
  { induction t as [r v cs e IH] using tree_ind. apply Hnode.
    induction IH as [|c cs' Hc _ IHcs]; [exact Hnil | apply Hcons; assumption]. }
  induction f as [|t f IHf]; [exact Hnil | apply Hcons; [apply HP | exact IHf]].
Qed.

(** Induction over the forest [f], with [P] for the trees in it. *)
Ltac forest_induction f P :=
  revert f;
  match goal with
  | |- forall f', @?Q f' => apply (forest_ind P Q)
  end.

Lemma nodes_of_cons t f :
  nodes_of (t :: f) = t :: nodes_of (kids t) ++ nodes_of f.
Proof. destruct t; reflexivity. Qed.

Lemma visible_forest_cons level t f :
  visible_forest level (t :: f) =
  (level, root t)
    :: (if is_expanded t then visible_forest (S level) (kids t) else [])
    ++ visible_forest level f.
Proof. destruct t; reflexivity. Qed.

Lemma height_forest_cons t f :
  height_forest (t :: f) = Nat.max (S (height_forest (kids t))) (height_forest f).
Proof. destruct t; reflexivity. Qed.

Lemma stored_cons s t f :
  stored s (t :: f) <->
  s (root t) = element_of t /\ stored s (kids t) /\ stored s f.
Proof.
  unfold stored. rewrite nodes_of_cons, Forall_cons_iff, Forall_app. tauto.
Qed.

(** *** The traversal of a stored forest *)

Lemma traverse_nil depth s level :
  traverse (S depth) s [] level = Ok [].
Proof. reflexivity. Qed.

Lemma traverse_cons depth s e es level :
  traverse (S depth) s (e :: es) level =
  result_bind
    (if expanded (s e) then traverse depth s (children (s e)) (S level) else Ok [])
    (fun below =>
       result_bind (traverse (S depth) s es level)
         (fun rest => Ok ((level, e) :: below ++ rest))).
Proof. reflexivity. Qed.

Lemma traverse_stored depth :
  forall s f level,
    stored s f ->
    (height_forest f < depth)%nat ->
    traverse depth s (map root f) level = Ok (visible_forest level f).
Proof.
  induction depth as [|depth IH]; intros s f level Hs Hh; [lia|].
  revert level Hs Hh. induction f as [|t f IHf]; intros level Hs Hh.
  - reflexivity.
  - apply stored_cons in Hs. destruct Hs as (Ht & Hk & Hf).
    rewrite height_forest_cons in Hh.
    cbn [map]. rewrite traverse_cons, Ht. cbn [element_of expanded children].
    rewrite visible_forest_cons, IHf by (assumption || lia).
    destruct (is_expanded t).
    + rewrite IH by (assumption || lia). reflexivity.
    + reflexivity.
Qed.

(** *** The traversal and the specification's sequence *)

Lemma spec_preorder_unreached f :
  forall depth, filter snd (flat_map (spec_preorder depth false) f) = [].
Proof.
  forest_induction f (fun t => forall depth, filter snd (spec_preorder depth false t) = []);
    [intros r v cs e IHcs depth | intros depth | intros t f IHt IHf depth].
  - cbn. apply IHcs.
  - reflexivity.
  - cbn [flat_map]. rewrite filter_app, IHt, IHf. reflexivity.
Qed.

Lemma spec_preorder_visible f :
  forall depth,
    map fst (filter snd (flat_map (spec_preorder depth true) f)) = visible_forest depth f.
Proof.
  forest_induction f (fun t => forall depth,
             map fst (filter snd (spec_preorder depth true t)) = visible depth t);
    [intros r v cs e IHcs depth | intros depth | intros t f IHt IHf depth].
  - cbn. f_equal. destruct e.
    + apply IHcs.
    + rewrite spec_preorder_unreached. reflexivity.
  - reflexivity.
  - cbn [flat_map]. rewrite filter_app, map_app, IHt, IHf. reflexivity.
Qed.

(** *** Toggling *)

Lemma root_toggle r t : root (toggle r t) = root t.
Proof. destruct t; reflexivity. Qed.

Lemma roots_toggle r f : map root (toggle_forest r f) = map root f.
Proof.
  unfold toggle_forest. rewrite map_map. apply map_ext. intros t. apply root_toggle.
Qed.

Lemma kids_toggle r t : kids (toggle r t) = toggle_forest r (kids t).
Proof. destruct t; reflexivity. Qed.

Lemma payload_toggle r t : payload (toggle r t) = payload t.
Proof. destruct t; reflexivity. Qed.

Lemma is_expanded_toggle r t :
  is_expanded (toggle r t) =
  if Nat.eqb (root t) r then negb (is_expanded t) else is_expanded t.
Proof. destruct t; reflexivity. Qed.

Lemma nodes_toggle r f : nodes_of (toggle_forest r f) = map (toggle r) (nodes_of f).
Proof.
  forest_induction f (fun t => nodes (toggle r t) = map (toggle r) (nodes t));
    [intros r' v cs e IHcs | idtac | intros t f IHt IHf].
  - cbn. f_equal. exact IHcs.
  - reflexivity.
  - unfold nodes_of, toggle_forest in *. cbn [map flat_map].
    rewrite map_app, IHt, IHf. reflexivity.
Qed.

Lemma refs_toggle r f : refs_of (toggle_forest r f) = refs_of f.
Proof.
  unfold refs_of. rewrite nodes_toggle, map_map. apply map_ext. intros t. apply root_toggle.
Qed.

Lemma height_toggle r f : height_forest (toggle_forest r f) = height_forest f.
Proof.
  forest_induction f (fun t => height (toggle r t) = height t);
    [intros r' v cs e IHcs | idtac | intros t f IHt IHf].
  - cbn. f_equal. exact IHcs.
  - reflexivity.
  - unfold height_forest, toggle_forest in *. cbn. rewrite IHt, IHf. reflexivity.
Qed.

Lemma separate_toggle r f : separate f -> separate (toggle_forest r f).
Proof. unfold separate. rewrite refs_toggle. trivial. Qed.

Lemma toggle_toggle r f : toggle_forest r (toggle_forest r f) = f.
Proof.
  forest_induction f (fun t => toggle r (toggle r t) = t);
    [intros r' v cs e IHcs | idtac | intros t f IHt IHf].
  - cbn. f_equal; [exact IHcs|].
    destruct (Nat.eqb r' r); [apply negb_involutive | reflexivity].
  - reflexivity.
  - unfold toggle_forest in *. cbn. rewrite IHt, IHf. reflexivity.
Qed.

(** The store after the assignment holds the toggled forest. *)
Lemma stored_toggle s f r :
  stored s f ->
  stored (assign_expanded s r (negb (expanded (s r)))) (toggle_forest r f).
Proof.
  unfold stored. rewrite nodes_toggle, Forall_map. apply Forall_impl.
  intros n Hn. unfold assign_expanded. rewrite root_toggle.
  unfold element_of. rewrite payload_toggle, kids_toggle, roots_toggle, is_expanded_toggle.
  destruct (Nat.eqb (root n) r) eqn:E.
  - apply Nat.eqb_eq in E. subst r. rewrite Hn. reflexivity.
  - exact Hn.
Qed.

(** *** Separate forests *)

Lemma distinct_NoDup (rs : list ref) : distinct rs = true <-> NoDup rs.
Proof.
  induction rs as [|r rs IH]; cbn.
  - split; [constructor | reflexivity].
  - rewrite andb_true_iff, negb_true_iff, IH. split.
    + intros [Hr Hrs]. constructor; [|exact Hrs].
      intros Hin. assert (E : existsb (Nat.eqb r) rs = true).
      { apply existsb_exists. exists r. split; [exact Hin | apply Nat.eqb_refl]. }
      congruence.
    + intros Hnd. inversion Hnd as [|? ? Hr Hrs]; subst. split; [|exact Hrs].
      destruct (existsb (Nat.eqb r) rs) eqn:E; [|reflexivity].
      apply existsb_exists in E. destruct E as (x & Hx & Ex).
      apply Nat.eqb_eq in Ex. subst x. contradiction.
Qed.

Lemma refs_of_cons t f :
  refs_of (t :: f) = root t :: refs_of (kids t) ++ refs_of f.
Proof. unfold refs_of. rewrite nodes_of_cons. cbn. rewrite map_app. reflexivity. Qed.

Lemma separate_cons t f :
  separate (t :: f) ->
  ~ In (root t) (refs_of (kids t)) /\
  separate (kids t) /\ separate f /\
  (forall r, In r (root t :: refs_of (kids t)) -> ~ In r (refs_of f)).
Proof.
  unfold separate. rewrite !distinct_NoDup, refs_of_cons. intros Hnd.
  inversion Hnd as [|? ? Hr Hrest]; subst.
  repeat split.
  - intros Hin. apply Hr, in_or_app. left. exact Hin.
  - eapply NoDup_app_remove_r. exact Hrest.
  - eapply NoDup_app_remove_l. exact Hrest.
  - intros r [Er | Hin] Hf.
    + subst r. apply Hr, in_or_app. right. exact Hf.
    + revert Hin Hf. clear -Hrest. revert Hrest.
      induction (refs_of (kids t)) as [|x xs IHxs]; cbn; intros Hnd Hin Hf; [contradiction|].
      inversion Hnd as [|? ? Hx Hxs]; subst. destruct Hin as [Ex | Hin].
      * subst x. apply Hx, in_or_app. right. exact Hf.
      * exact (IHxs Hxs Hin Hf).
Qed.

(** The references of the visible sequence are references of the forest. *)
Lemma visible_refs f :
  forall level d r, In (d, r) (visible_forest level f) -> In r (refs_of f).
Proof.
  forest_induction f (fun t => forall level d r,
      In (d, r) (visible level t) -> In r (refs_of [t]));
    [intros r' v cs e IHcs level d r Hin | intros level d r Hin
    | intros t f IHt IHf level d r Hin].
  - rewrite refs_of_cons. cbn [root kids refs_of nodes_of flat_map map]. rewrite app_nil_r.
    cbn in Hin. destruct Hin as [E | Hin].
    + left. congruence.
    + right. destruct e; [|contradiction]. eapply IHcs. exact Hin.
  - contradiction.
  - rewrite refs_of_cons. unfold visible_forest in Hin. cbn [flat_map] in Hin.
    apply in_app_or in Hin. destruct Hin as [Hin | Hin].
    + apply IHt in Hin. rewrite refs_of_cons in Hin.
      cbn [refs_of nodes_of flat_map map] in Hin. rewrite app_nil_r in Hin.
      destruct Hin as [E | Hin]; [left; exact E | right; apply in_or_app; left; exact Hin].
    + right. apply in_or_app. right. eapply IHf. exact Hin.
Qed.

(** Toggling an object that is not in the forest changes nothing. *)
Lemma toggle_absent r f : ~ In r (refs_of f) -> toggle_forest r f = f.
Proof.
  forest_induction f (fun t => ~ In r (refs_of [t]) -> toggle r t = t);
    [intros r' v cs e IHcs Hr | intros Hr | intros t f IHt IHf Hr].
  - rewrite refs_of_cons in Hr. cbn [root kids refs_of nodes_of flat_map map] in Hr.
    rewrite app_nil_r in Hr. cbn in Hr. cbn.
    destruct (Nat.eqb r' r) eqn:E.
    + apply Nat.eqb_eq in E. tauto.
    + f_equal. apply IHcs. tauto.
  - reflexivity.
  - rewrite refs_of_cons in Hr. cbn in Hr. rewrite in_app_iff in Hr.
    unfold toggle_forest in *. cbn [map]. rewrite IHt, IHf; [reflexivity | tauto |].
    rewrite refs_of_cons. cbn [refs_of nodes_of flat_map map]. rewrite app_nil_r.
    cbn. tauto.
Qed.

(** The object at a visible position stays at that position when its own
    flag is negated: the nodes before it are not below it. *)
Lemma visible_toggle_same f :
  forall level i d r,
    separate f ->
    nth_error (visible_forest level f) i = Some (d, r) ->
    nth_error (visible_forest level (toggle_forest r f)) i = Some (d, r).
Proof.
  forest_induction f (fun t => forall level i d r,
      separate [t] ->
      nth_error (visible level t) i = Some (d, r) ->
      nth_error (visible level (toggle r t)) i = Some (d, r));
    [intros r' v cs e IHcs level i d r Hsep Hi | intros level i d r Hsep Hi
    | intros t f IHt IHf level i d r Hsep Hi].
  - destruct i as [|j]; [exact Hi|].
    apply separate_cons in Hsep. cbn [root kids] in Hsep.
    destruct Hsep as (Hroot & Hcs & _ & _).
    cbn in Hi. destruct e; [|destruct j; discriminate].
    assert (Hin : In r (refs_of cs)).
    { eapply visible_refs, nth_error_In. exact Hi. }
    assert (E : Nat.eqb r' r = false).
    { apply Nat.eqb_neq. intros ->. contradiction. }
    cbn. rewrite E. cbn. apply IHcs; assumption.
  - destruct i; discriminate.
  - pose proof (separate_cons _ _ Hsep) as (Hroot & Hkids & Hf & Hcross).
    assert (Ht : separate [t]).
    { unfold separate in *. rewrite distinct_NoDup in *.
      rewrite refs_of_cons in *. cbn [refs_of nodes_of flat_map map] in *.
      rewrite app_nil_r. constructor; [exact Hroot | exact Hkids]. }
    unfold visible_forest, toggle_forest in *. cbn [flat_map map] in *.
    destruct (Nat.lt_ge_cases i (List.length (visible level t))) as [Hlt | Hge].
    + rewrite nth_error_app1 in Hi by exact Hlt.
      pose proof (IHt _ _ _ _ Ht Hi) as Hi'.
      rewrite nth_error_app1; [exact Hi'|].
      apply nth_error_Some. congruence.
    + rewrite nth_error_app2 in Hi by exact Hge.
      assert (Hin : In r (refs_of f)).
      { eapply visible_refs, nth_error_In. exact Hi. }
      assert (Hout : ~ In r (refs_of [t])).
      { rewrite refs_of_cons. cbn [refs_of nodes_of flat_map map]. rewrite app_nil_r.
        intros Hr. exact (Hcross r Hr Hin). }
      pose proof (toggle_absent r [t] Hout) as Et.
      unfold toggle_forest in Et. cbn in Et. injection Et as Et. rewrite Et.
      rewrite nth_error_app2 by exact Hge. apply IHf; assumption.
Qed.

(** Every separate forest is held by a store. *)
Lemma store_of_stored f (other : TreeElement TEV) :
  separate f -> stored (store_of f other) f.
Proof.
  unfold separate, stored, store_of, refs_of. rewrite distinct_NoDup.
  generalize (nodes_of f) as ns. intros ns Hnd. apply Forall_forall. intros n Hn.
  induction ns as [|m ns IH]; [contradiction|].
  cbn [map] in Hnd. inversion Hnd as [|? ? Hm Hns]; subst. cbn [find].
  destruct Hn as [-> | Hn].
  - rewrite Nat.eqb_refl. reflexivity.
  - destruct (Nat.eqb (root m) (root n)) eqn:E.
    + apply Nat.eqb_eq in E. exfalso. apply Hm. rewrite E. apply in_map. exact Hn.
    + apply IH; assumption.
Qed.


(** *** The search loop *)

Lemma find_loop_nth (visible : list (nat * ref)) :
  forall i index,
    find_loop i index visible =
    if Z.ltb i index then None
    else option_map snd (nth_error visible (Z.to_nat (i - index))).
Proof.
  induction visible as [|[level element] visible IH]; intros i index; cbn [find_loop].
  - destruct (Z.ltb i index); [reflexivity|]. destruct (Z.to_nat (i - index)); reflexivity.
  - destruct (Z.eqb_spec i index) as [-> | Hne].
    + rewrite Z.ltb_irrefl, Z.sub_diag. reflexivity.
    + rewrite IH. destruct (Z.ltb_spec i index) as [Hlt | Hge].
      * destruct (Z.ltb_spec i (index + 1)); [reflexivity | lia].
      * destruct (Z.ltb_spec i (index + 1)); [lia|].
        replace (Z.to_nat (i - index)) with (S (Z.to_nat (i - (index + 1)))) by lia.
        reflexivity.
Qed.

Lemma find_loop_in_range (visible : list (nat * ref)) (i : Z) :
  0 <= i < Z.of_nat (List.length visible) ->
  exists d r,
    nth_error visible (Z.to_nat i) = Some (d, r) /\ find_loop i 0 visible = Some r.
Proof.
  intros Hi. rewrite find_loop_nth.
  destruct (Z.ltb_spec i 0); [lia|]. rewrite Z.sub_0_r.
  destruct (nth_error visible (Z.to_nat i)) as [[d r]|] eqn:E.
  - exists d, r. split; reflexivity.
  - apply nth_error_None in E. lia.
Qed.

Lemma find_loop_out_of_range (visible : list (nat * ref)) (i : Z) :
  i < 0 \/ Z.of_nat (List.length visible) <= i ->
  find_loop i 0 visible = None.
Proof.
  intros Hi. rewrite find_loop_nth.
  destruct (Z.ltb_spec i 0); [reflexivity|]. rewrite Z.sub_0_r.
  assert (E : nth_error visible (Z.to_nat i) = None) by (apply nth_error_None; lia).
  rewrite E. reflexivity.
Qed.

(** *** The component over a represented forest *)

Variable recursion_limit : nat.

Implicit Types (w : world TEV).

Lemma traverse_represented w f :
  represents w f ->
  (height_forest f < recursion_limit)%nat ->
  _traverse_visible recursion_limit (objects w) (values (self w)) 0 =
  Ok (visible_forest 0 f).
Proof.
  intros (Hv & Hs & _) Hh. unfold _traverse_visible. rewrite Hv.
  apply traverse_stored; assumption.
Qed.

Lemma number_represented w f :
  represents w f ->
  (height_forest f < recursion_limit)%nat ->
  _number_of_visible_elements recursion_limit (objects w) (self w) =
  Ok (Z.of_nat (List.length (visible_forest 0 f))).
Proof.
  intros Hw Hh. unfold _number_of_visible_elements.
  rewrite (traverse_represented w f Hw Hh). reflexivity.
Qed.

Lemma selected_represented w f :
  represents w f ->
  (height_forest f < recursion_limit)%nat ->
  get_selected_element recursion_limit (objects w) (self w) =
  Ok (find_loop (_selected_index (self w)) 0 (visible_forest 0 f)).
Proof.
  intros Hw Hh. unfold get_selected_element, _find_expanded_by_index.
  rewrite (traverse_represented w f Hw Hh). reflexivity.
Qed.

Lemma represents_toggled w f r :
  represents w f -> represents (toggled w r) (toggle_forest r f).
Proof.
  intros (Hv & Hs & Hsep). repeat split.
  - cbn. rewrite roots_toggle. exact Hv.
  - cbn. apply stored_toggle. exact Hs.
  - apply separate_toggle. exact Hsep.
Qed.

Lemma handle_enter_represented w f :
  represents w f ->
  (height_forest f < recursion_limit)%nat ->
  0 <= _selected_index (self w) < Z.of_nat (List.length (visible_forest 0 f)) ->
  exists d r,
    nth_error (visible_forest 0 f) (Z.to_nat (_selected_index (self w))) = Some (d, r) /\
    get_selected_element recursion_limit (objects w) (self w) = Ok (Some r) /\
    _handle_enter recursion_limit w = (Ok tt, toggled w r).
Proof.
  intros Hw Hh Hi.
  destruct (find_loop_in_range _ _ Hi) as (d & r & Hnth & Hfind).
  exists d, r. split; [exact Hnth|].
  pose proof (selected_represented w f Hw Hh) as Hsel. rewrite Hfind in Hsel.
  split; [exact Hsel|].
  unfold _handle_enter, bind, query. rewrite Hsel. reflexivity.
Qed.

Lemma handle_enter_no_selection w f :
  represents w f ->
  (height_forest f < recursion_limit)%nat ->
  _selected_index (self w) < 0 \/
  Z.of_nat (List.length (visible_forest 0 f)) <= _selected_index (self w) ->
  get_selected_element recursion_limit (objects w) (self w) = Ok None /\
  _handle_enter recursion_limit w = (Raise AttributeError, w).
Proof.
  intros Hw Hh Hi.
  pose proof (selected_represented w f Hw Hh) as Hsel.
  rewrite (find_loop_out_of_range _ _ Hi) in Hsel.
  split; [exact Hsel|].
  unfold _handle_enter, bind, query. rewrite Hsel. reflexivity.
Qed.

(** *** The rendering loop *)

Context {drawable : Drawable TEV}.

Variable open_character : string.
Variable close_character : string.
Variable default_style : string.

Local Abbreviation row_step' := (row_step open_character close_character default_style).
Local Abbreviation spec_row' := (spec_row open_character close_character default_style).
Local Abbreviation spec_rows' := (spec_rows open_character close_character default_style).
Local Abbreviation fragments_of :=
  (_get_text_fragments recursion_limit open_character close_character default_style).

Lemma row_step_row s selected_index result current_index level element :
  row_step' s selected_index (result, current_index) (level, element) =
  (result
     ++ spec_row' (Z.eqb current_index selected_index) level (s element)
     ++ [line_break],
   current_index + 1).
Proof.
  unfold row_step, spec_row, spec_marker, has_children, line_break.
  destruct (Z.eqb current_index selected_index);
    destruct (children (s element)); destruct (expanded (s element));
    cbn [app]; repeat rewrite <- app_assoc; reflexivity.
Qed.

Lemma fold_row_step s selected_index (visible : list (nat * ref)) :
  forall result current_index,
    fold_left (row_step' s selected_index) visible (result, current_index) =
    (result
       ++ flat_map (fun row => row ++ [line_break])
            (spec_rows' s selected_index current_index visible),
     current_index + Z.of_nat (List.length visible)).
Proof.
  induction visible as [|[level element] visible IH]; intros result current_index.
  - cbn. rewrite app_nil_r. f_equal. lia.
  - cbn [fold_left]. rewrite row_step_row, IH. cbn [spec_rows flat_map List.length].
    rewrite <- !app_assoc. f_equal. lia.
Qed.

Lemma removelast_rows (rws : list (list StyleAndText)) :
  removelast (flat_map (fun row => row ++ [line_break]) rws) = join_rows rws.
Proof.
  induction rws as [|row rws IH]; [reflexivity|].
  cbn [flat_map]. destruct rws as [|row' rws].
  - cbn [flat_map]. rewrite app_nil_r. apply removelast_last.
  - rewrite removelast_app.
    + rewrite IH. cbn [join_rows]. rewrite <- app_assoc. reflexivity.
    + cbn [flat_map]. destruct row'; discriminate.
Qed.

Lemma removelast_map {X Y : Type} (g : X -> Y) (l : list X) :
  removelast (map g l) = map g (removelast l).
Proof.
  induction l as [|x l IH]; [reflexivity|].
  cbn. destruct l; [reflexivity|]. cbn in *. rewrite IH. reflexivity.
Qed.

(** The returned stream is the rows of the visible sequence, joined by
    line breaks, every fragment carrying the mouse handler. *)
Lemma get_text_fragments_rows s (c : TreeComponent) (visible : list (nat * ref)) :
  _traverse_visible recursion_limit s (values c) 0 = Ok visible ->
  fragments_of s c =
  Ok (with_handler recursion_limit
        (join_rows (spec_rows' s (_selected_index c) 0 visible))).
Proof.
  intros Hv. unfold _get_text_fragments. rewrite Hv. cbn [result_bind].
  rewrite fold_row_step. cbn [app]. f_equal.
  unfold with_handler. rewrite <- removelast_rows, <- removelast_map.
  match goal with |- (if Nat.ltb 0 (List.length ?l) then _ else _) = _ => destruct l end;
    reflexivity.
Qed.

Lemma spec_rows_length s selected_index (visible : list (nat * ref)) :
  forall index,
    List.length (spec_rows' s selected_index index visible) = List.length visible.
Proof.
  induction visible as [|[level element] visible IH]; intros index; cbn.
  - reflexivity.
  - rewrite IH. reflexivity.
Qed.

Lemma spec_rows_nth s selected_index (visible : list (nat * ref)) :
  forall index k level element,
    nth_error visible k = Some (level, element) ->
    nth_error (spec_rows' s selected_index index visible) k =
    Some (spec_row' (Z.eqb (index + Z.of_nat k) selected_index) level (s element)).
Proof.
  induction visible as [|[level' element'] visible IH]; intros index k level element Hk.
  - destruct k; discriminate.
  - destruct k as [|k]; cbn in Hk |- *.
    + injection Hk as -> ->. rewrite Z.add_0_r. reflexivity.
    + rewrite (IH _ _ _ _ Hk). do 3 f_equal. lia.
Qed.

(** *** The text of the stream *)

Lemma count_newlines_append (a b : string) :
  count_newlines (append a b) = (count_newlines a + count_newlines b)%nat.
Proof. induction a as [|c a IH]; cbn; [reflexivity | rewrite IH; lia]. Qed.

Lemma last_char_append (a b : string) :
  last_char (append a b) =
  match last_char b with
  | Some c => Some c
  | None => last_char a
  end.
Proof.
  induction a as [|c a IH]; cbn.
  - destruct (last_char b); reflexivity.
  - rewrite IH. destruct (last_char b); reflexivity.
Qed.

Lemma plain_text_app (a b : list StyleAndText) :
  plain_text (a ++ b) = append (plain_text a) (plain_text b).
Proof.
  induction a as [|x a IH]; [reflexivity|].
  change (plain_text ((x :: a) ++ b)) with (append (snd x) (plain_text (a ++ b))).
  change (plain_text (x :: a)) with (append (snd x) (plain_text a)).
  rewrite IH. generalize (snd x) as t.
  induction t as [|c t IHt]; cbn; [reflexivity | rewrite IHt; reflexivity].
Qed.

Lemma text_of_with_handler (fragments : list StyleAndText) :
  text_of (with_handler (TEV := TEV) recursion_limit fragments) = plain_text fragments.
Proof.
  induction fragments as [|x l IH]; [reflexivity|].
  change (text_of (with_handler (TEV := TEV) recursion_limit (x :: l)))
    with (append (snd x) (text_of (with_handler (TEV := TEV) recursion_limit l))).
  rewrite IH. reflexivity.
Qed.

Lemma plain_text_indent level :
  count_newlines (plain_text (repeat (EmptyString, "   "%string) level)) = O.
Proof. induction level as [|level IH]; [reflexivity | exact IH]. Qed.

Lemma spec_row_one_line selected level (element : TreeElement TEV) :
  count_newlines open_character = O ->
  count_newlines close_character = O ->
  one_line (render (value element)) ->
  one_line (spec_row' selected level element).
Proof.
  intros Ho Hc Hp. unfold one_line, spec_row in *.
  rewrite !plain_text_app, !count_newlines_append, plain_text_indent, Hp.
  cbn [plain_text fold_right snd append]. rewrite !count_newlines_append, Ho, Hc.
  destruct selected, (has_children element), (expanded element); reflexivity.
Qed.

Lemma spec_row_not_empty selected level (element : TreeElement TEV) :
  spec_row' selected level element <> [].
Proof.
  unfold spec_row. intros E. apply app_eq_nil in E. destruct E as [_ E]. discriminate.
Qed.

Lemma join_rows_newlines (rws : list (list StyleAndText)) :
  Forall one_line rws ->
  count_newlines (plain_text (join_rows rws)) = Nat.pred (List.length rws).
Proof.
  induction 1 as [|row rws Hrow Hrws IH]; [reflexivity|].
  destruct rws as [|row' rws]; [exact Hrow|].
  change (join_rows (row :: row' :: rws)) with (row ++ line_break :: join_rows (row' :: rws)).
  rewrite plain_text_app, count_newlines_append, Hrow.
  change (plain_text (line_break :: join_rows (row' :: rws)))
    with (append nl (plain_text (join_rows (row' :: rws)))).
  rewrite count_newlines_append, IH. reflexivity.
Qed.

Lemma join_rows_not_empty (rws : list (list StyleAndText)) :
  rws <> [] -> Forall (fun row => row <> []) rws -> join_rows rws <> [].
Proof.
  intros Hne Hall. destruct Hall as [|row rws Hrow Hrws]; [contradiction|].
  destruct rws; cbn; [exact Hrow|]. destruct row; [contradiction | discriminate].
Qed.

(** The last character of the joined rows is the last character of the
    last row. *)
Lemma join_rows_last (rws : list (list StyleAndText)) (row : list StyleAndText) :
  last_char (plain_text row) <> None ->
  last_char (plain_text (join_rows (rws ++ [row]))) = last_char (plain_text row).
Proof.
  intros Hrow. induction rws as [|row' rws IH]; [reflexivity|].
  cbn [app]. destruct (rws ++ [row]) as [|x l] eqn:E.
  - destruct rws; discriminate.
  - change (join_rows (row' :: x :: l)) with (row' ++ line_break :: join_rows (x :: l)).
    rewrite plain_text_app, last_char_append.
    change (plain_text (line_break :: join_rows (x :: l)))
      with (append nl (plain_text (join_rows (x :: l)))).
    rewrite last_char_append, IH.
    destruct (last_char (plain_text row)); [reflexivity | contradiction].
Qed.

(** The last character of a row is the payload's, or the blank before the
    payload when the payload draws no character. *)
Lemma spec_row_last selected level (element : TreeElement TEV) :
  last_char (plain_text (spec_row' selected level element)) =
  match last_char (plain_text (render (value element))) with
  | Some c => Some c
  | None => Some " "%char
  end.
Proof.
  unfold spec_row. rewrite !app_assoc, plain_text_app, last_char_append.
  destruct (last_char (plain_text (render (value element)))); [reflexivity|].
  rewrite <- !app_assoc. rewrite !plain_text_app, !last_char_append.
  change (plain_text [(EmptyString, close_character); (default_style, " "%string)])
    with (append close_character " "%string).
  rewrite last_char_append. reflexivity.
Qed.

Lemma spec_rows_snoc s selected_index (visible : list (nat * ref)) level element :
  forall index,
    spec_rows' s selected_index index (visible ++ [(level, element)]) =
    spec_rows' s selected_index index visible
      ++ [spec_row' (Z.eqb (index + Z.of_nat (List.length visible)) selected_index)
            level (s element)].
Proof.
  induction visible as [|[level' element'] visible IH]; intros index; cbn [app spec_rows].
  - cbn. rewrite Z.add_0_r. reflexivity.
  - rewrite IH. cbn [List.length]. do 5 f_equal. lia.
Qed.

(** ** The claims *)

(** C1.  On every forest the traversal yields the depth-first pre-order
    sequence of (depth, element) pairs, depth 0 at the roots and one more
    per nesting level, restricted to the elements whose ancestors are all
    expanded: the children of a yielded element are visited exactly when
    its flag is set.  A collapsed element yields its own entry only,
    whatever is below it. *)
Theorem traverse_visible_preorder (s : store TEV) (f : forest TEV) :
  stored s f ->
  (height_forest f < recursion_limit)%nat ->
  _traverse_visible recursion_limit s (map root f) 0 = Ok (spec_visible_sequence f) /\
  (forall t level,
      In t (nodes_of f) ->
      is_expanded t = false ->
      _traverse_visible recursion_limit s [root t] level = Ok [(level, root t)]).
Proof.
  intros Hs Hh. split.
  - unfold _traverse_visible, spec_visible_sequence.
    rewrite spec_preorder_visible. apply traverse_stored; assumption.
  - intros t level Hin He. unfold _traverse_visible.
    destruct recursion_limit as [|depth]; [lia|].
    unfold stored in Hs. rewrite Forall_forall in Hs.
    rewrite traverse_cons, (Hs t Hin). cbn [element_of expanded]. rewrite He.
    reflexivity.
Qed.

(** C5.  With the selected index inside a non-empty visible sequence,
    [_handle_enter] run twice returns: the second run finds the element the
    first run found, every object is as it was before, and the traversal
    yields the original sequence again. *)
Theorem toggle_twice_restores_visible w f :
  represents w f ->
  (height_forest f < recursion_limit)%nat ->
  0 <= _selected_index (self w) < Z.of_nat (List.length (visible_forest 0 f)) ->
  exists w1 w2,
    _handle_enter recursion_limit w = (Ok tt, w1) /\
    _handle_enter recursion_limit w1 = (Ok tt, w2) /\
    self w2 = self w /\
    (forall r, objects w2 r = objects w r) /\
    _traverse_visible recursion_limit (objects w) (values (self w)) 0 =
      Ok (visible_forest 0 f) /\
    _traverse_visible recursion_limit (objects w2) (values (self w2)) 0 =
      Ok (visible_forest 0 f).
Proof.
  intros Hw Hh Hi.
  destruct (handle_enter_represented w f Hw Hh Hi) as (d & r & Hnth & _ & Hrun1).
  pose proof (represents_toggled w f r Hw) as Hw1.
  assert (Hh1 : (height_forest (toggle_forest r f) < recursion_limit)%nat)
    by (rewrite height_toggle; exact Hh).
  pose proof Hw as (_ & _ & Hsep).
  pose proof (visible_toggle_same f 0 _ d r Hsep Hnth) as Hnth1.
  assert (Hi1 : 0 <= _selected_index (self (toggled w r))
                < Z.of_nat (List.length (visible_forest 0 (toggle_forest r f)))).
  { assert (Hlt : (Z.to_nat (_selected_index (self w))
                   < List.length (visible_forest 0 (toggle_forest r f)))%nat)
      by (apply nth_error_Some; congruence).
    cbn. lia. }
  destruct (handle_enter_represented _ _ Hw1 Hh1 Hi1) as (d' & r' & Hnth' & _ & Hrun2).
  cbn [toggled self] in Hnth'. rewrite Hnth1 in Hnth'. injection Hnth' as <- <-.
  pose proof (represents_toggled _ _ r Hw1) as Hw2. rewrite toggle_toggle in Hw2.
  exists (toggled w r), (toggled (toggled w r) r).
  repeat split; try assumption.
  - intros r0. cbn. unfold assign_expanded. rewrite Nat.eqb_refl.
    destruct (Nat.eqb r0 r) eqn:E; [|reflexivity].
    apply Nat.eqb_eq in E. subst r0. cbn. rewrite negb_involutive.
    destruct (objects w r); reflexivity.
  - apply traverse_represented; assumption.
  - apply traverse_represented; assumption.
Qed.

(** C8.  Whatever the roots and the selected index were, [set_values]
    makes the given list the roots and the selected index 0. *)
Theorem set_values_replaces_and_resets w (new_values : list ref) :
  set_values new_values w =
    (Ok tt, mkWorld (objects w) (mkTreeComponent new_values 0)) /\
  values (self (snd (set_values new_values w))) = new_values /\
  _selected_index (self (snd (set_values new_values w))) = 0.
Proof.
  unfold set_values, bind, set_values_field, set_selected_index.
  cbn. repeat split.
Qed.

(** C10.  With the selected index inside a non-empty visible sequence,
    [_handle_enter] negates the [expanded] flag of the selected element and
    changes nothing else: the component's roots and selected index, every
    other object, and the value and children of the selected element stay,
    and [get_selected_element] returns the same element afterwards. *)
Theorem toggle_changes_only_the_flag w f :
  represents w f ->
  (height_forest f < recursion_limit)%nat ->
  0 <= _selected_index (self w) < Z.of_nat (List.length (visible_forest 0 f)) ->
  exists r w',
    get_selected_element recursion_limit (objects w) (self w) = Ok (Some r) /\
    _handle_enter recursion_limit w = (Ok tt, w') /\
    self w' = self w /\
    (forall r', r' <> r -> objects w' r' = objects w r') /\
    value (objects w' r) = value (objects w r) /\
    children (objects w' r) = children (objects w r) /\
    expanded (objects w' r) = negb (expanded (objects w r)) /\
    get_selected_element recursion_limit (objects w') (self w') = Ok (Some r).
Proof.
  intros Hw Hh Hi.
  destruct (handle_enter_represented w f Hw Hh Hi) as (d & r & Hnth & Hsel & Hrun).
  exists r, (toggled w r).
  pose proof Hw as (_ & _ & Hsep).
  repeat split; try assumption.
  - intros r' Hne. cbn. unfold assign_expanded.
    destruct (Nat.eqb r' r) eqn:E; [apply Nat.eqb_eq in E; contradiction | reflexivity].
  - cbn. unfold assign_expanded. rewrite Nat.eqb_refl. reflexivity.
  - cbn. unfold assign_expanded. rewrite Nat.eqb_refl. reflexivity.
  - cbn. unfold assign_expanded. rewrite Nat.eqb_refl. reflexivity.
  - pose proof (represents_toggled w f r Hw) as Hw1.
    rewrite (selected_represented _ _ Hw1) by (rewrite height_toggle; exact Hh).
    pose proof (visible_toggle_same f 0 _ d r Hsep Hnth) as Hnth1.
    cbn [toggled self]. rewrite find_loop_nth.
    destruct (Z.ltb_spec (_selected_index (self w)) 0); [lia|].
    rewrite Z.sub_0_r, Hnth1. reflexivity.
Qed.

(** On a non-empty forest the four navigation keys keep the selected index
    inside the visible sequence, and change nothing else. *)
Lemma navigation_keeps_range w f (key : Key) (event : KeyPressEvent) :
  key = key_up \/ key = key_down \/ key = key_pageup \/ key = key_pagedown ->
  represents w f ->
  (height_forest f < recursion_limit)%nat ->
  0 <= _selected_index (self w) < Z.of_nat (List.length (visible_forest 0 f)) ->
  exists i,
    key_bindings recursion_limit key event w =
      (Ok tt, mkWorld (objects w) (mkTreeComponent (values (self w)) i)) /\
    0 <= i < Z.of_nat (List.length (visible_forest 0 f)).
Proof.
  intros Hkey Hw Hh Hi.
  pose proof (number_represented w f Hw Hh) as Hn.
  destruct Hkey as [-> | [-> | [-> | ->]]]; cbn [key_bindings].
  - eexists. split; [reflexivity | lia].
  - unfold _down, bind, query. rewrite Hn.
    eexists. split; [reflexivity | lia].
  - unfold _pageup. destruct (render_info event) as [info|].
    + eexists. split; [reflexivity | lia].
    + exists (_selected_index (self w)). split; [|lia].
      destruct w as [s [vs i]]. reflexivity.
  - unfold _pagedown. destruct (render_info event) as [info|].
    + unfold bind, query. rewrite Hn. eexists. split; [reflexivity | lia].
    + exists (_selected_index (self w)). split; [|lia].
      destruct w as [s [vs i]]. reflexivity.
Qed.

(** C2, at the empty forest: from the selected index 0, the down key and
    the page-down key make the selected index negative. *)
Theorem down_on_empty_forest (s : store TEV) (event : KeyPressEvent)
  (info : WindowRenderInfo) :
  _down (S recursion_limit) event (mkWorld s (mkTreeComponent [] 0)) =
    (Ok tt, mkWorld s (mkTreeComponent [] (-1))) /\
  _pagedown (S recursion_limit) (mkKeyPressEvent (Some info))
      (mkWorld s (mkTreeComponent [] 0)) =
    (Ok tt, mkWorld s (mkTreeComponent [] (-1))).
Proof.
  split.
  - reflexivity.
  - unfold _pagedown, bind, query, set_selected_index. cbn.
    rewrite Z.min_l by lia. reflexivity.
Qed.

(** C3, at the empty forest: [get_selected_element] returns [None], and
    the handler of enter, space and right raises [AttributeError]. *)
Theorem click_on_empty_forest (s : store TEV) (i : Z) (event : KeyPressEvent) :
  get_selected_element (S recursion_limit) s (mkTreeComponent [] i) = Ok None /\
  _click (S recursion_limit) event (mkWorld s (mkTreeComponent [] i)) =
    (Raise AttributeError, mkWorld s (mkTreeComponent [] i)).
Proof. split; reflexivity. Qed.

(** C4, amended.  For every world and every row offset, a [MOUSE_UP] event
    makes the offset the selected index as it is, without clamping, and
    then runs [_handle_enter], in one call: whatever that call does, the
    selected index is the offset afterwards and the roots are the same.
    Other mouse events change nothing.  With the offset inside the visible
    sequence of a forest the call returns and has negated the flag of the
    element at that offset. *)
Theorem mouse_up_selects_and_toggles w (y : Z) :
  mouse_handler recursion_limit (mkMouseEvent MOUSE_UP y) w =
    _handle_enter recursion_limit (mkWorld (objects w) (mkTreeComponent (values (self w)) y)) /\
  self (snd (mouse_handler recursion_limit (mkMouseEvent MOUSE_UP y) w)) =
    mkTreeComponent (values (self w)) y /\
  (forall kind, kind <> MOUSE_UP ->
      mouse_handler recursion_limit (mkMouseEvent kind y) w = (Ok tt, w)) /\
  (forall f,
      represents w f ->
      (height_forest f < recursion_limit)%nat ->
      0 <= y < Z.of_nat (List.length (visible_forest 0 f)) ->
      exists d r,
        nth_error (visible_forest 0 f) (Z.to_nat y) = Some (d, r) /\
        mouse_handler recursion_limit (mkMouseEvent MOUSE_UP y) w =
          (Ok tt,
           mkWorld (assign_expanded (objects w) r (negb (expanded (objects w r))))
                   (mkTreeComponent (values (self w)) y))).
Proof.
  split; [reflexivity|]. split; [|split].
  - unfold mouse_handler, bind, set_selected_index. cbn [event_type position_y].
    unfold _handle_enter, bind, query. cbn [objects self].
    destruct (get_selected_element recursion_limit (objects w)
                (mkTreeComponent (values (self w)) y)) as [[r|]|e]; reflexivity.
  - intros kind Hkind. destruct kind; [contradiction | reflexivity..].
  - intros f Hw Hh Hy.
    set (w0 := mkWorld (objects w) (mkTreeComponent (values (self w)) y)).
    assert (Hw0 : represents w0 f).
    { destruct Hw as (Hv & Hs & Hsep). repeat split; assumption. }
    destruct (handle_enter_represented w0 f Hw0 Hh Hy) as (d & r & Hnth & _ & Hrun).
    exists d, r. split; [exact Hnth|].
    unfold mouse_handler, bind, set_selected_index. cbn [event_type position_y].
    fold w0. rewrite Hrun. reflexivity.
Qed.

(** Every visible element is the object of a node of the forest. *)
Lemma visible_stored s f level d r :
  stored s f ->
  In (d, r) (visible_forest level f) ->
  exists n, In n (nodes_of f) /\ root n = r /\ s r = element_of n.
Proof.
  intros Hs Hin. apply visible_refs in Hin. unfold refs_of in Hin.
  apply in_map_iff in Hin. destruct Hin as (n & Hr & Hn).
  exists n. repeat split; [exact Hn | exact Hr |].
  unfold stored in Hs. rewrite Forall_forall in Hs. rewrite <- Hr. apply Hs. exact Hn.
Qed.

Lemma spec_rows_one_line s selected_index (visible : list (nat * ref)) :
  count_newlines open_character = O ->
  count_newlines close_character = O ->
  (forall d r, In (d, r) visible -> one_line (render (value (s r)))) ->
  forall index, Forall one_line (spec_rows' s selected_index index visible).
Proof.
  intros Ho Hc. induction visible as [|[level element] visible IH]; intros Hp index; cbn.
  - constructor.
  - constructor.
    + apply spec_row_one_line; try assumption. apply (Hp level). left. reflexivity.
    + apply IH. intros d r Hin. apply (Hp d). right. exact Hin.
Qed.

Lemma spec_rows_not_empty s selected_index (visible : list (nat * ref)) :
  forall index,
    Forall (fun row => row <> []) (spec_rows' s selected_index index visible).
Proof.
  induction visible as [|[level element] visible IH]; intros index; cbn; constructor.
  - apply spec_row_not_empty.
  - apply IH.
Qed.

(** C6, amended.  The number of visible elements is the length of the
    traversal's sequence; when no payload rendering and neither the open
    nor the close character contains a line break, it is also the number of
    newline-separated lines of the rendered stream. *)
Theorem rows_count_visible s (c : TreeComponent) f :
  values c = map root f ->
  stored s f ->
  (height_forest f < recursion_limit)%nat ->
  count_newlines open_character = O ->
  count_newlines close_character = O ->
  Forall (fun n => one_line (render (payload n))) (nodes_of f) ->
  exists visible fragments,
    _traverse_visible recursion_limit s (values c) 0 = Ok visible /\
    _number_of_visible_elements recursion_limit s c = Ok (Z.of_nat (List.length visible)) /\
    fragments_of s c = Ok fragments /\
    rows fragments = List.length visible.
Proof.
  intros Hv Hs Hh Ho Hc Hp.
  assert (Ht : _traverse_visible recursion_limit s (values c) 0 = Ok (visible_forest 0 f)).
  { unfold _traverse_visible. rewrite Hv. apply traverse_stored; assumption. }
  exists (visible_forest 0 f). eexists. split; [exact Ht|]. split; [|split].
  - unfold _number_of_visible_elements. rewrite Ht. reflexivity.
  - apply get_text_fragments_rows. exact Ht.
  - set (rws := spec_rows' s (_selected_index c) 0 (visible_forest 0 f)).
    assert (Hlen : List.length rws = List.length (visible_forest 0 f))
      by apply spec_rows_length.
    assert (Hone : Forall one_line rws).
    { apply spec_rows_one_line; try assumption. intros d r Hin.
      destruct (visible_stored s f 0 d r Hs Hin) as (n & Hn & _ & Hr).
      rewrite Hr. cbn [element_of value]. rewrite Forall_forall in Hp. apply Hp. exact Hn. }
    assert (Hrows : Forall (fun row => row <> []) rws) by apply spec_rows_not_empty.
    rewrite <- Hlen. destruct rws as [|row rws'] eqn:E; [reflexivity|].
    assert (Hjoin : join_rows (row :: rws') <> []).
    { apply join_rows_not_empty; [discriminate | exact Hrows]. }
    unfold rows. pose proof (text_of_with_handler (join_rows (row :: rws'))) as Htext.
    destruct (join_rows (row :: rws')) as [|x l] eqn:Ej; [contradiction|].
    cbn [with_handler map] in *. rewrite Htext.
    rewrite <- Ej, join_rows_newlines by exact Hone. reflexivity.
Qed.

(** C7.  The stream is the rows of the visible elements, and the row of
    the element at position [k], at depth [level], is: [level] times the
    three-blank indent, the open character, the cursor mark when [k] is the
    selected index, the marker, the close character, a blank, and the
    payload's rendering.  The marker is a blank when the children list is
    empty, whatever the flag, else "-" when expanded and "+" when not. *)
Theorem rows_show_indent_and_marker s (c : TreeComponent) f :
  values c = map root f ->
  stored s f ->
  (height_forest f < recursion_limit)%nat ->
  fragments_of s c =
    Ok (with_handler recursion_limit
          (join_rows (spec_rows' s (_selected_index c) 0 (visible_forest 0 f)))) /\
  (forall k level r,
      nth_error (visible_forest 0 f) k = Some (level, r) ->
      nth_error (spec_rows' s (_selected_index c) 0 (visible_forest 0 f)) k =
      Some (repeat (EmptyString, "   "%string) level
            ++ [(EmptyString, open_character)]
            ++ (if Z.eqb (Z.of_nat k) (_selected_index c)
                then [("[SetCursorPosition]"%string, EmptyString)] else [])
            ++ [(EmptyString,
                 match children (s r) with
                 | [] => " "%string
                 | _ :: _ => if expanded (s r) then "-"%string else "+"%string
                 end)]
            ++ [(EmptyString, close_character); (default_style, " "%string)]
            ++ render (value (s r)))).
Proof.
  intros Hv Hs Hh. split.
  - apply get_text_fragments_rows. unfold _traverse_visible. rewrite Hv.
    apply traverse_stored; assumption.
  - intros k level r Hk. rewrite (spec_rows_nth _ _ _ _ _ _ _ Hk).
    unfold spec_row, spec_marker, has_children. cbn [Z.add].
    destruct (children (s r)); reflexivity.
Qed.

(** C9, amended.  Rendering returns; the stream is the rows with a
    line-break fragment after every row but the last; it is empty for the
    empty forest; and it ends in a line break exactly when the rendering of
    the last visible payload does. *)
Theorem rendering_joins_rows s (c : TreeComponent) f :
  values c = map root f ->
  stored s f ->
  (height_forest f < recursion_limit)%nat ->
  exists fragments,
    fragments_of s c = Ok fragments /\
    fragments =
      with_handler recursion_limit
        (join_rows (spec_rows' s (_selected_index c) 0 (visible_forest 0 f))) /\
    (f = [] -> fragments = []) /\
    (forall before level r,
        visible_forest 0 f = before ++ [(level, r)] ->
        (ends_in_newline (text_of fragments) <->
         ends_in_newline (plain_text (render (value (s r)))))).
Proof.
  intros Hv Hs Hh. eexists. split; [|split; [reflexivity|split]].
  - apply get_text_fragments_rows. unfold _traverse_visible. rewrite Hv.
    apply traverse_stored; assumption.
  - intros ->. reflexivity.
  - intros before level r Hlast. unfold ends_in_newline.
    rewrite text_of_with_handler, Hlast, spec_rows_snoc.
    rewrite join_rows_last by (rewrite spec_row_last;
      destruct (last_char (plain_text (render (value (s r))))); discriminate).
    rewrite spec_row_last.
    destruct (last_char (plain_text (render (value (s r))))); [reflexivity|].
    split; discriminate.
Qed.

(** ** Further properties of the component *)

(** X1.  On a non-empty forest, any sequence of up, down, page-up and page-down
    presses returns, keeps the selected index inside the visible sequence
    and changes neither the objects nor the roots. *)
Theorem presses_keep_selection_in_range (presses : list (Key * KeyPressEvent)) :
  forall w f,
    forallb (fun press => moves_selection (fst press)) presses = true ->
    represents w f ->
    (height_forest f < recursion_limit)%nat ->
    0 <= _selected_index (self w) < Z.of_nat (List.length (visible_forest 0 f)) ->
    exists i,
      press_all recursion_limit presses w =
        (Ok tt, mkWorld (objects w) (mkTreeComponent (values (self w)) i)) /\
      0 <= i < Z.of_nat (List.length (visible_forest 0 f)).
Proof.
  induction presses as [|[key event] presses IH]; intros w f Hkeys Hw Hh Hi.
  - exists (_selected_index (self w)). split; [|exact Hi].
    destruct w as [s [vs i]]. reflexivity.
  - cbn [forallb fst] in Hkeys. apply andb_true_iff in Hkeys. destruct Hkeys as [Hkey Hkeys].
    assert (Hnav : key = key_up \/ key = key_down \/ key = key_pageup \/ key = key_pagedown).
    { destruct key; try discriminate; tauto. }
    destruct (navigation_keeps_range w f key event Hnav Hw Hh Hi) as (i & Hrun & Hrange).
    set (w1 := mkWorld (objects w) (mkTreeComponent (values (self w)) i)) in *.
    assert (Hw1 : represents w1 f).
    { destruct Hw as (Hv & Hs & Hsep). repeat split; assumption. }
    destruct (IH w1 f Hkeys Hw1 Hh Hrange) as (j & Hrest & Hj).
    exists j. split; [|exact Hj].
    cbn [press_all]. unfold bind. rewrite Hrun. exact Hrest.
Qed.

(** X2.  The down key on the last visible row and the up key on the first row
    change nothing. *)
Theorem ends_stop_the_selection w f (event : KeyPressEvent) :
  represents w f ->
  (height_forest f < recursion_limit)%nat ->
  (_selected_index (self w) = Z.of_nat (List.length (visible_forest 0 f)) - 1 ->
   0 <= _selected_index (self w) ->
   _down recursion_limit event w = (Ok tt, w)) /\
  (_selected_index (self w) = 0 -> _up event w = (Ok tt, w)).
Proof.
  intros Hw Hh. split.
  - intros Hlast Hpos. unfold _down, bind, query.
    rewrite (number_represented w f Hw Hh). unfold set_selected_index.
    rewrite Z.min_l by lia. rewrite <- Hlast.
    destruct w as [s [vs i]]. reflexivity.
  - intros Hfirst. unfold _up, set_selected_index. rewrite Hfirst.
    destruct w as [s [vs i]]. cbn in *. subst i. reflexivity.
Qed.

(** X3.  [get_selected_element] returns the element at the selected position of
    the traversal, and [None] exactly when the selected index is outside
    the visible sequence. *)
Theorem selected_element_is_at_index w f :
  represents w f ->
  (height_forest f < recursion_limit)%nat ->
  (forall r,
      get_selected_element recursion_limit (objects w) (self w) = Ok (Some r) <->
      0 <= _selected_index (self w) /\
      exists d,
        nth_error (visible_forest 0 f) (Z.to_nat (_selected_index (self w))) = Some (d, r)) /\
  (get_selected_element recursion_limit (objects w) (self w) = Ok None <->
   _selected_index (self w) < 0 \/
   Z.of_nat (List.length (visible_forest 0 f)) <= _selected_index (self w)).
Proof.
  intros Hw Hh. rewrite (selected_represented w f Hw Hh).
  set (i := _selected_index (self w)). set (vis := visible_forest 0 f).
  destruct (Z.ltb_spec i 0) as [Hneg | Hpos].
  - rewrite find_loop_out_of_range by (left; exact Hneg). split.
    + intros r. split; [discriminate | lia].
    + split; [left; exact Hneg | reflexivity].
  - destruct (Z.ltb_spec i (Z.of_nat (List.length vis))) as [Hin | Hout].
    + destruct (find_loop_in_range vis i (conj Hpos Hin)) as (d & r0 & Hnth & Hfind).
      rewrite Hfind. split.
      * intros r. split.
        -- intros E. injection E as <-. split; [exact Hpos | exists d; exact Hnth].
        -- intros (_ & d' & Hnth'). rewrite Hnth in Hnth'. injection Hnth' as _ <-. reflexivity.
      * split; [discriminate | lia].
    + rewrite find_loop_out_of_range by (right; exact Hout). split.
      * intros r. split; [discriminate|].
        intros (_ & d & Hnth).
        assert (Hlt : (Z.to_nat i < List.length vis)%nat) by (apply nth_error_Some; congruence).
        lia.
      * split; [right; exact Hout | reflexivity].
Qed.

(** X4.  With the selected index outside the visible sequence, [_handle_enter]
    raises [AttributeError] and changes nothing. *)
Theorem handle_enter_raises_without_selection w f :
  represents w f ->
  (height_forest f < recursion_limit)%nat ->
  _selected_index (self w) < 0 \/
  Z.of_nat (List.length (visible_forest 0 f)) <= _selected_index (self w) ->
  _handle_enter recursion_limit w = (Raise AttributeError, w).
Proof.
  intros Hw Hh Hi. apply (handle_enter_no_selection w f Hw Hh Hi).
Qed.

(** X5.  A [MOUSE_UP] whose row offset is outside the visible sequence raises
    [AttributeError]; the offset stays assigned to the selected index and
    no object is changed. *)
Theorem mouse_up_outside_raises w f (y : Z) :
  represents w f ->
  (height_forest f < recursion_limit)%nat ->
  y < 0 \/ Z.of_nat (List.length (visible_forest 0 f)) <= y ->
  mouse_handler recursion_limit (mkMouseEvent MOUSE_UP y) w =
  (Raise AttributeError, mkWorld (objects w) (mkTreeComponent (values (self w)) y)).
Proof.
  intros Hw Hh Hy.
  set (w0 := mkWorld (objects w) (mkTreeComponent (values (self w)) y)).
  assert (Hw0 : represents w0 f).
  { destruct Hw as (Hv & Hs & Hsep). repeat split; assumption. }
  destruct (handle_enter_no_selection w0 f Hw0 Hh Hy) as [_ Hrun].
  unfold mouse_handler, bind, set_selected_index. cbn [event_type position_y].
  fold w0. rewrite Hrun. reflexivity.
Qed.

(** *** What a toggle shows and hides *)

Lemma nodes_cons_tree (t : tree TEV) : nodes t = t :: nodes_of (kids t).
Proof. destruct t; reflexivity. Qed.

Lemma height_cons_tree (t : tree TEV) : height t = S (height_forest (kids t)).
Proof. destruct t; reflexivity. Qed.

Lemma separate_single t f : separate (t :: f) -> separate [t].
Proof.
  intros Hsep. pose proof (separate_cons _ _ Hsep) as (Hroot & Hkids & _ & _).
  unfold separate in *. rewrite distinct_NoDup in *.
  rewrite refs_of_cons. cbn [refs_of nodes_of flat_map map]. rewrite app_nil_r.
  constructor; assumption.
Qed.

(** The visible sequence around the position [i] of the object [r], before
    and after the flag of [r] is negated: the part [below] the object is
    there exactly when the flag is set. *)
Lemma visible_toggle_splice f :
  forall level i d r,
    separate f ->
    nth_error (visible_forest level f) i = Some (d, r) ->
    exists n pre post,
      In n (nodes_of f) /\ root n = r /\
      incl (nodes_of (kids n)) (nodes_of f) /\
      (S (height_forest (kids n)) <= height_forest f)%nat /\
      List.length pre = i /\
      visible_forest level f =
        pre ++ (d, r) :: (if is_expanded n then visible_forest (S d) (kids n) else []) ++ post /\
      visible_forest level (toggle_forest r f) =
        pre ++ (d, r) :: (if is_expanded n then [] else visible_forest (S d) (kids n)) ++ post.
Proof.
  forest_induction f (fun t => forall level i d r,
      separate [t] ->
      nth_error (visible level t) i = Some (d, r) ->
      exists n pre post,
        In n (nodes t) /\ root n = r /\
        incl (nodes_of (kids n)) (nodes t) /\
        (S (height_forest (kids n)) <= height t)%nat /\
        List.length pre = i /\
        visible level t =
          pre ++ (d, r) :: (if is_expanded n then visible_forest (S d) (kids n) else []) ++ post /\
        visible level (toggle r t) =
          pre ++ (d, r) :: (if is_expanded n then [] else visible_forest (S d) (kids n)) ++ post);
    [intros r' v cs e IHcs level i d r Hsep Hi | intros level i d r Hsep Hi
    | intros t f IHt IHf level i d r Hsep Hi].
  - apply separate_cons in Hsep. cbn [root kids] in Hsep.
    destruct Hsep as (Hroot & Hcs & _ & _).
    destruct i as [|j].
    + cbn in Hi. injection Hi as <- <-.
      exists (Node r' v cs e), [], [].
      rewrite nodes_cons_tree, height_cons_tree. cbn [kids root is_expanded].
      repeat split.
      * left. reflexivity.
      * apply incl_tl, incl_refl.
      * apply Nat.le_refl.
      * cbn. rewrite app_nil_r. reflexivity.
      * cbn. rewrite Nat.eqb_refl, app_nil_r.
        pose proof (toggle_absent r' cs Hroot) as Ecs. unfold toggle_forest in Ecs.
        rewrite Ecs. destruct e; reflexivity.
    + cbn in Hi. destruct e; [|destruct j; discriminate].
      destruct (IHcs (S level) j d r Hcs Hi)
        as (n & pre & post & Hn & Hr & Hincl & Hh & Hlen & Hvis & Hvis').
      assert (Hin : In r (refs_of cs)).
      { eapply visible_refs, nth_error_In. exact Hi. }
      assert (E : Nat.eqb r' r = false).
      { apply Nat.eqb_neq. intros ->. contradiction. }
      exists n, ((level, r') :: pre), post.
      rewrite nodes_cons_tree, height_cons_tree. cbn [kids].
      repeat split.
      * right. exact Hn.
      * exact Hr.
      * apply incl_tl. exact Hincl.
      * lia.
      * cbn. rewrite Hlen. reflexivity.
      * cbn. unfold visible_forest in Hvis. rewrite Hvis. reflexivity.
      * cbn. rewrite E. unfold visible_forest, toggle_forest in Hvis'.
        rewrite Hvis'. reflexivity.
  - destruct i; discriminate.
  - pose proof (separate_cons _ _ Hsep) as (Hroot & Hkids & Hf & Hcross).
    pose proof (separate_single _ _ Hsep) as Ht.
    change (nodes_of (t :: f)) with (nodes t ++ nodes_of f).
    change (height_forest (t :: f)) with (Nat.max (height t) (height_forest f)).
    unfold visible_forest, toggle_forest in *. cbn [flat_map map] in *.
    destruct (Nat.lt_ge_cases i (List.length (visible level t))) as [Hlt | Hge].
    + rewrite nth_error_app1 in Hi by exact Hlt.
      destruct (IHt level i d r Ht Hi)
        as (n & pre & post & Hn & Hr & Hincl & Hh & Hlen & Hvis & Hvis').
      assert (Hin : In r (refs_of [t])).
      { apply (visible_refs [t] level d). unfold visible_forest. cbn [flat_map].
        rewrite app_nil_r. eapply nth_error_In. exact Hi. }
      assert (Hout : ~ In r (refs_of f)).
      { apply Hcross. rewrite refs_of_cons in Hin.
        cbn [refs_of nodes_of flat_map map] in Hin. rewrite app_nil_r in Hin. exact Hin. }
      pose proof (toggle_absent r f Hout) as Ef. unfold toggle_forest in Ef.
      exists n, pre, (post ++ flat_map (visible level) f).
      repeat split.
      * apply in_or_app. left. exact Hn.
      * exact Hr.
      * apply incl_appl. exact Hincl.
      * lia.
      * exact Hlen.
      * rewrite Hvis. rewrite <- !app_assoc. cbn [app]. rewrite <- !app_assoc. reflexivity.
      * rewrite Hvis', Ef. rewrite <- !app_assoc. cbn [app]. rewrite <- !app_assoc. reflexivity.
    + rewrite nth_error_app2 in Hi by exact Hge.
      destruct (IHf level _ d r Hf Hi)
        as (n & pre & post & Hn & Hr & Hincl & Hh & Hlen & Hvis & Hvis').
      assert (Hin : In r (refs_of f)).
      { eapply visible_refs, nth_error_In. exact Hi. }
      assert (Hout : ~ In r (refs_of [t])).
      { rewrite refs_of_cons. cbn [refs_of nodes_of flat_map map]. rewrite app_nil_r.
        intros Hr'. exact (Hcross r Hr' Hin). }
      pose proof (toggle_absent r [t] Hout) as Et.
      unfold toggle_forest in Et. cbn in Et. injection Et as Et.
      exists n, (visible level t ++ pre), post.
      repeat split.
      * apply in_or_app. right. exact Hn.
      * exact Hr.
      * apply incl_appr. exact Hincl.
      * lia.
      * rewrite length_app, Hlen. lia.
      * rewrite Hvis. rewrite <- !app_assoc. reflexivity.
      * rewrite Et, Hvis'. rewrite <- !app_assoc. reflexivity.
Qed.

Lemma stored_incl s f g :
  stored s f -> incl (nodes_of g) (nodes_of f) -> stored s g.
Proof.
  unfold stored. rewrite !Forall_forall. intros Hs Hincl n Hn. apply Hs, Hincl, Hn.
Qed.

(** X6.  [_handle_enter] on a collapsed element inserts the visible sequence of
    its children, one level deeper, right after it; on an expanded element
    it removes exactly that part.  The entries before and after stay, in
    their order. *)
Theorem toggle_splices_the_children w f :
  represents w f ->
  (height_forest f < recursion_limit)%nat ->
  0 <= _selected_index (self w) < Z.of_nat (List.length (visible_forest 0 f)) ->
  exists d r pre post below w',
    List.length pre = Z.to_nat (_selected_index (self w)) /\
    _traverse_visible recursion_limit (objects w) (children (objects w r)) (S d) = Ok below /\
    _traverse_visible recursion_limit (objects w) (values (self w)) 0 =
      Ok (pre ++ (d, r) :: (if expanded (objects w r) then below else []) ++ post) /\
    _handle_enter recursion_limit w = (Ok tt, w') /\
    _traverse_visible recursion_limit (objects w') (values (self w')) 0 =
      Ok (pre ++ (d, r) :: (if expanded (objects w r) then [] else below) ++ post).
Proof.
  intros Hw Hh Hi.
  destruct (handle_enter_represented w f Hw Hh Hi) as (d & r & Hnth & _ & Hrun).
  pose proof Hw as (Hv & Hs & Hsep).
  destruct (visible_toggle_splice f 0 _ d r Hsep Hnth)
    as (n & pre & post & Hn & Hr & Hincl & Hhn & Hlen & Hvis & Hvis').
  assert (Hobj : objects w r = element_of n).
  { unfold stored in Hs. rewrite Forall_forall in Hs. rewrite <- Hr. apply Hs. exact Hn. }
  exists d, r, pre, post, (visible_forest (S d) (kids n)), (toggled w r).
  rewrite Hobj. cbn [element_of children expanded]. repeat split.
  - exact Hlen.
  - unfold _traverse_visible. apply traverse_stored; [|lia].
    eapply stored_incl; eassumption.
  - rewrite (traverse_represented w f Hw Hh). f_equal. exact Hvis.
  - exact Hrun.
  - rewrite (traverse_represented _ _ (represents_toggled w f r Hw))
      by (rewrite height_toggle; exact Hh).
    f_equal. exact Hvis'.
Qed.



(** X8.  After [set_values] with the roots of a stored forest the selection is
    the first root, inside the visible sequence; for the empty forest there
    is no selection. *)
Theorem set_values_selects_first_root w f :
  stored (objects w) f ->
  (height_forest f < recursion_limit)%nat ->
  exists w',
    set_values (map root f) w = (Ok tt, w') /\
    get_selected_element recursion_limit (objects w') (self w') =
      Ok (option_map root (List.head f)) /\
    (f <> [] ->
     exists n,
       _number_of_visible_elements recursion_limit (objects w') (self w') = Ok n /\
       0 <= _selected_index (self w') < n).
Proof.
  intros Hs Hh. eexists. split; [reflexivity|]. cbn [snd objects self].
  assert (Ht : _traverse_visible recursion_limit (objects w) (map root f) 0 =
               Ok (visible_forest 0 f))
    by (apply traverse_stored; assumption).
  split.
  - unfold get_selected_element, _find_expanded_by_index. cbn [values _selected_index].
    rewrite Ht. destruct f as [|t f]; [reflexivity|].
    rewrite visible_forest_cons. reflexivity.
  - intros Hne. unfold _number_of_visible_elements. cbn [values _selected_index].
    rewrite Ht. eexists. split; [reflexivity|].
    destruct f as [|t f]; [contradiction|]. rewrite visible_forest_cons. cbn. lia.
Qed.

(** *** How many elements are visible *)

Lemma visible_length_bounds f :
  forall level,
    (List.length f <= List.length (visible_forest level f)
     <= List.length (nodes_of f))%nat.
Proof.
  forest_induction f (fun t => forall level,
      (1 <= List.length (visible level t) <= List.length (nodes t))%nat);
    [intros r v cs e IHcs level | intros level | intros t f IHt IHf level].
  - cbn [visible nodes List.length]. destruct e.
    + specialize (IHcs (S level)). unfold visible_forest, nodes_of in IHcs. lia.
    + cbn. lia.
  - cbn. lia.
  - unfold visible_forest, nodes_of in *. cbn [flat_map List.length].
    rewrite !length_app. specialize (IHt level). specialize (IHf level). lia.
Qed.

Lemma visible_all_collapsed f level :
  Forall (fun t => is_expanded t = false) f ->
  visible_forest level f = map (fun t => (level, root t)) f.
Proof.
  induction 1 as [|t f Ht _ IH]; [reflexivity|].
  rewrite visible_forest_cons, Ht, IH. reflexivity.
Qed.

Lemma visible_all_expanded f :
  forall level,
    Forall (fun n => is_expanded n = true) (nodes_of f) ->
    map snd (visible_forest level f) = refs_of f.
Proof.
  forest_induction f (fun t => forall level,
      Forall (fun n => is_expanded n = true) (nodes t) ->
      map snd (visible level t) = refs_of [t]);
    [intros r v cs e IHcs level Hall | intros level Hall | intros t f IHt IHf level Hall].
  - rewrite refs_of_cons. cbn [root kids refs_of nodes_of flat_map map]. rewrite app_nil_r.
    cbn [nodes] in Hall. inversion Hall as [|? ? He Hcs]; subst. cbn in He. subst e.
    cbn. f_equal. apply IHcs. exact Hcs.
  - reflexivity.
  - change (nodes_of (t :: f)) with (nodes t ++ nodes_of f) in Hall.
    apply Forall_app in Hall. destruct Hall as [Ht Hf].
    rewrite refs_of_cons. unfold visible_forest. cbn [flat_map]. rewrite map_app.
    rewrite (IHt level Ht). fold (visible_forest level f). rewrite (IHf level Hf).
    rewrite refs_of_cons. cbn [refs_of nodes_of flat_map map]. rewrite app_nil_r.
    reflexivity.
Qed.

(** X9.  The number of visible elements lies between the number of roots and
    the number of elements of the forest.  With every root collapsed the
    visible sequence is the roots at level 0; with every element expanded
    every element is visible, in pre-order. *)
Theorem visible_count_bounds s (c : TreeComponent) f :
  values c = map root f ->
  stored s f ->
  (height_forest f < recursion_limit)%nat ->
  exists visible,
    _traverse_visible recursion_limit s (values c) 0 = Ok visible /\
    _number_of_visible_elements recursion_limit s c = Ok (Z.of_nat (List.length visible)) /\
    (List.length (values c) <= List.length visible <= List.length (nodes_of f))%nat /\
    (Forall (fun r => expanded (s r) = false) (values c) ->
     visible = map (fun r => (O, r)) (values c)) /\
    (Forall (fun n => expanded (s (root n)) = true) (nodes_of f) ->
     map snd visible = refs_of f).
Proof.
  intros Hv Hs Hh.
  assert (Ht : _traverse_visible recursion_limit s (values c) 0 = Ok (visible_forest 0 f)).
  { unfold _traverse_visible. rewrite Hv. apply traverse_stored; assumption. }
  exists (visible_forest 0 f). split; [exact Ht|]. split; [|split; [|split]].
  - unfold _number_of_visible_elements. rewrite Ht. reflexivity.
  - rewrite Hv, length_map. apply visible_length_bounds.
  - intros Hall. rewrite Hv, map_map. apply visible_all_collapsed.
    rewrite Hv, Forall_map in Hall. rewrite Forall_forall in Hall |- *.
    intros t Hin. specialize (Hall t Hin).
    unfold stored in Hs. rewrite Forall_forall in Hs.
    rewrite (Hs t) in Hall; [exact Hall|].
    unfold nodes_of. apply in_flat_map. exists t. split; [exact Hin|].
    rewrite nodes_cons_tree. left. reflexivity.
  - intros Hall. apply visible_all_expanded.
    unfold stored in Hs. rewrite Forall_forall in Hs, Hall |- *.
    intros n Hn. specialize (Hall n Hn). rewrite (Hs n Hn) in Hall. exact Hall.
Qed.

(** *** Pages and single steps *)

Lemma repeated_down w f (event : KeyPressEvent) (k : nat) :
  forall i,
    represents w f ->
    (height_forest f < recursion_limit)%nat ->
    0 <= i < Z.of_nat (List.length (visible_forest 0 f)) ->
    press_all recursion_limit (repeat (key_down, event) k)
      (mkWorld (objects w) (mkTreeComponent (values (self w)) i)) =
    (Ok tt,
     mkWorld (objects w)
       (mkTreeComponent (values (self w))
          (Z.min (Z.of_nat (List.length (visible_forest 0 f)) - 1) (i + Z.of_nat k)))).
Proof.
  induction k as [|k IH]; intros i Hw Hh Hi.
  - cbn [repeat press_all]. unfold ret. do 3 f_equal. lia.
  - cbn [repeat press_all key_bindings]. unfold bind at 1.
    assert (Hwi : represents (mkWorld (objects w) (mkTreeComponent (values (self w)) i)) f).
    { destruct Hw as (Hv & Hs & Hsep). repeat split; assumption. }
    unfold _down, bind, query. rewrite (number_represented _ f Hwi Hh).
    unfold set_selected_index. cbn [objects self values _selected_index].
    rewrite IH by (assumption || lia). do 3 f_equal. lia.
Qed.

Lemma repeated_up w (event : KeyPressEvent) (k : nat) :
  forall i,
    0 <= i ->
    press_all recursion_limit (repeat (key_up, event) k)
      (mkWorld (objects w) (mkTreeComponent (values (self w)) i)) =
    (Ok tt,
     mkWorld (objects w) (mkTreeComponent (values (self w)) (Z.max 0 (i - Z.of_nat k)))).
Proof.
  induction k as [|k IH]; intros i Hi.
  - cbn [repeat press_all]. unfold ret. do 3 f_equal. lia.
  - cbn [repeat press_all key_bindings]. unfold bind at 1.
    unfold _up, set_selected_index. cbn [objects self values _selected_index].
    rewrite IH by lia. do 3 f_equal. lia.
Qed.

(** X10.  With the selected index inside the visible sequence, a page-down over
    a window of [k] displayed lines does what [k] presses of the down key
    do, and a page-up what [k] presses of the up key do. *)
Theorem page_is_repeated_step w f (event : KeyPressEvent) (info : WindowRenderInfo) :
  represents w f ->
  (height_forest f < recursion_limit)%nat ->
  0 <= _selected_index (self w) < Z.of_nat (List.length (visible_forest 0 f)) ->
  _pagedown recursion_limit (mkKeyPressEvent (Some info)) w =
    press_all recursion_limit
      (repeat (key_down, event) (List.length (displayed_lines info))) w /\
  _pageup (mkKeyPressEvent (Some info)) w =
    press_all recursion_limit
      (repeat (key_up, event) (List.length (displayed_lines info))) w.
Proof.
  intros Hw Hh Hi.
  assert (Ew : w = mkWorld (objects w)
                     (mkTreeComponent (values (self w)) (_selected_index (self w))))
    by (destruct w as [s [vs i]]; reflexivity).
  split.
  - rewrite Ew at 2. rewrite (repeated_down w f event _ _ Hw Hh Hi).
    unfold _pagedown, bind, query. cbn [render_info].
    rewrite (number_represented w f Hw Hh). reflexivity.
  - rewrite Ew at 2. rewrite repeated_up by lia. reflexivity.
Qed.

(** *** The shape of the visible sequence *)

Lemma stepwise_app (a b : list (nat * ref)) (level : nat) :
  Forall (fun entry => (level <= fst entry)%nat) a ->
  (forall previous, (level <= S previous)%nat -> stepwise previous b) ->
  forall previous,
    (level <= S previous)%nat ->
    stepwise previous a ->
    stepwise previous (a ++ b).
Proof.
  intros Hall Hb. induction Hall as [|[d r] a Hd Hall IH]; intros previous Hle Ha.
  - apply Hb. exact Hle.
  - cbn in Hd, Ha |- *. destruct Ha as [Hstep Ha]. split; [exact Hstep|].
    apply IH; [lia | exact Ha].
Qed.

(** Below the level [level] the sequence starts at that level and goes
    down stepwise; every depth is at least [level]. *)
Lemma visible_stepwise f :
  forall level previous,
    (level <= S previous)%nat ->
    stepwise previous (visible_forest level f) /\
    Forall (fun entry => (level <= fst entry)%nat) (visible_forest level f).
Proof.
  forest_induction f (fun t => forall level previous,
      (level <= S previous)%nat ->
      stepwise previous (visible level t) /\
      Forall (fun entry => (level <= fst entry)%nat) (visible level t));
    [intros r v cs e IHcs level previous Hle | intros level previous Hle
    | intros t f IHt IHf level previous Hle].
  - cbn [visible]. destruct e.
    + destruct (IHcs (S level) level ltac:(lia)) as [Hstep Hall]. split.
      * cbn. split; [exact Hle | exact Hstep].
      * constructor; [cbn; lia|]. revert Hall. apply Forall_impl. intros entry. lia.
    + split; [cbn; tauto | constructor; [cbn; lia | constructor]].
  - split; [exact I | constructor].
  - unfold visible_forest in *. cbn [flat_map].
    destruct (IHt level previous Hle) as [Hstep_t Hall_t]. split.
    + apply (stepwise_app _ _ level); try assumption.
      intros previous' Hle'. apply (IHf level previous' Hle').
    + apply Forall_app. split; [exact Hall_t | apply (IHf level previous Hle)].
Qed.

Lemma visible_distinct f :
  forall level, separate f -> NoDup (map snd (visible_forest level f)).
Proof.
  forest_induction f (fun t => forall level,
      separate [t] -> NoDup (map snd (visible level t)));
    [intros r v cs e IHcs level Hsep | intros level Hsep | intros t f IHt IHf level Hsep].
  - apply separate_cons in Hsep. cbn [root kids] in Hsep.
    destruct Hsep as (Hroot & Hcs & _ & _).
    cbn [visible map snd]. constructor.
    + destruct e; [|intros []]. intros Hin. apply Hroot.
      apply in_map_iff in Hin. destruct Hin as ([d r'] & Er & Hin). cbn in Er. subst r'.
      eapply visible_refs. exact Hin.
    + destruct e; [apply IHcs; exact Hcs | constructor].
  - constructor.
  - pose proof (separate_cons _ _ Hsep) as (_ & _ & Hf & Hcross).
    pose proof (separate_single _ _ Hsep) as Ht.
    unfold visible_forest in *. cbn [flat_map]. rewrite map_app.
    apply NoDup_app; [apply IHt; exact Ht | apply IHf; exact Hf |].
    intros r Hin_t Hin_f.
    apply in_map_iff in Hin_t. destruct Hin_t as ([d1 r1] & E1 & Hin_t). cbn in E1. subst r1.
    apply in_map_iff in Hin_f. destruct Hin_f as ([d2 r2] & E2 & Hin_f). cbn in E2. subst r2.
    apply (Hcross r).
    + assert (Hr : In r (refs_of [t])).
      { apply (visible_refs [t] level d1). unfold visible_forest. cbn [flat_map].
        rewrite app_nil_r. exact Hin_t. }
      rewrite refs_of_cons in Hr. cbn [refs_of nodes_of flat_map map] in Hr.
      rewrite app_nil_r in Hr. exact Hr.
    + eapply visible_refs. exact Hin_f.
Qed.

(** X11.  The traversal yields no element twice; its first entry is a root at
    depth 0, and from one entry to the next the depth grows by one at most,
    so that a row is indented at most one unit more than the row above. *)
Theorem visible_sequence_shape w f :
  represents w f ->
  (height_forest f < recursion_limit)%nat ->
  exists visible,
    _traverse_visible recursion_limit (objects w) (values (self w)) 0 = Ok visible /\
    NoDup (map snd visible) /\
    List.head visible = option_map (fun r => (O, r)) (List.head (values (self w))) /\
    (forall i d r d' r',
        nth_error visible i = Some (d, r) ->
        nth_error visible (S i) = Some (d', r') ->
        (d' <= S d)%nat).
Proof.
  intros Hw Hh. exists (visible_forest 0 f).
  split; [apply traverse_represented; assumption|].
  pose proof Hw as (Hv & _ & Hsep).
  split; [apply visible_distinct; exact Hsep|]. split.
  - rewrite Hv. destruct f as [|t f]; [reflexivity|].
    rewrite visible_forest_cons. reflexivity.
  - destruct (visible_stepwise f 0 0 ltac:(lia)) as [Hstep _].
    revert Hstep. generalize (visible_forest 0 f) as visible. generalize O as previous.
    intros previous visible. revert previous.
    induction visible as [|[d0 r0] visible IH]; intros previous Hstep i d r d' r' Hi Hi'.
    + destruct i; discriminate.
    + cbn in Hstep. destruct Hstep as [_ Hstep]. destruct i as [|i].
      * cbn in Hi, Hi'. injection Hi as <- <-.
        destruct visible as [|[d1 r1] visible]; [discriminate|].
        cbn in Hi', Hstep. injection Hi' as <- <-. tauto.
      * cbn in Hi, Hi'. exact (IH d0 Hstep i d r d' r' Hi Hi').
Qed.

End Facts.

(** * The claims on concrete components *)

Import Scenario.

(** C1 on the scenario [[A(collapsed, [A1, A2]), B]]. *)
Lemma traverse_visible_preorder_witness :
  _traverse_visible python_recursion_limit board_store (map root board) 0 =
    Ok (spec_visible_sequence board) /\
  (forall t level,
      In t (nodes_of board) ->
      is_expanded t = false ->
      _traverse_visible python_recursion_limit board_store [root t] level =
      Ok [(level, root t)]).
Proof.
  apply (traverse_visible_preorder python_recursion_limit board_store board).
  - repeat constructor.
  - vm_compute. lia.
Defined.

(** C5 on the scenario, [A] selected. *)
Lemma toggle_twice_restores_visible_witness :
  exists w1 w2,
    _handle_enter python_recursion_limit (board_world 0) = (Ok tt, w1) /\
    _handle_enter python_recursion_limit w1 = (Ok tt, w2) /\
    self w2 = self (board_world 0) /\
    (forall r, objects w2 r = objects (board_world 0) r) /\
    _traverse_visible python_recursion_limit (objects (board_world 0))
      (values (self (board_world 0))) 0 = Ok (visible_forest 0 board) /\
    _traverse_visible python_recursion_limit (objects w2) (values (self w2)) 0 =
      Ok (visible_forest 0 board).
Proof.
  apply (toggle_twice_restores_visible python_recursion_limit (board_world 0) board).
  - repeat constructor.
  - vm_compute. lia.
  - vm_compute. split; [discriminate | reflexivity].
Defined.

(** C10 on the scenario, [A] selected. *)
Lemma toggle_changes_only_the_flag_witness :
  exists r w',
    get_selected_element python_recursion_limit (objects (board_world 0))
      (self (board_world 0)) = Ok (Some r) /\
    _handle_enter python_recursion_limit (board_world 0) = (Ok tt, w') /\
    self w' = self (board_world 0) /\
    (forall r', r' <> r -> objects w' r' = objects (board_world 0) r') /\
    value (objects w' r) = value (objects (board_world 0) r) /\
    children (objects w' r) = children (objects (board_world 0) r) /\
    expanded (objects w' r) = negb (expanded (objects (board_world 0) r)) /\
    get_selected_element python_recursion_limit (objects w') (self w') = Ok (Some r).
Proof.
  apply (toggle_changes_only_the_flag python_recursion_limit (board_world 0) board).
  - repeat constructor.
  - vm_compute. lia.
  - vm_compute. split; [discriminate | reflexivity].
Defined.

(** C4 as stated fails: a [MOUSE_UP] at row 5 of the two visible rows
    leaves the selected index at 5, not at the clamped 1, toggles nothing
    and raises. *)
Lemma mouse_up_is_not_clamped :
  let run := mouse_handler python_recursion_limit (mkMouseEvent MOUSE_UP 5) (board_world 0) in
  _number_of_visible_elements python_recursion_limit (objects (snd run)) (self (snd run)) = Ok 2 /\
  _selected_index (self (snd run)) = 5 /\
  _selected_index (self (snd run)) <> spec_clamp 5 2 /\
  expanded (objects (snd run) 3%nat) = expanded (objects (board_world 0) 3%nat) /\
  fst run = Raise AttributeError.
Proof.
  vm_compute. repeat split. discriminate.
Qed.

(** C4, amended, on the scenario: a [MOUSE_UP] on row 1 selects and
    toggles [B]; on row 5 the selected index becomes 5. *)
Lemma mouse_up_selects_and_toggles_witness :
  (exists d r,
      nth_error (visible_forest 0 board) (Z.to_nat 1) = Some (d, r) /\
      mouse_handler python_recursion_limit (mkMouseEvent MOUSE_UP 1) (board_world 0) =
        (Ok tt,
         mkWorld (assign_expanded (objects (board_world 0)) r
                    (negb (expanded (objects (board_world 0) r))))
                 (mkTreeComponent (values (self (board_world 0))) 1))) /\
  self (snd (mouse_handler python_recursion_limit (mkMouseEvent MOUSE_UP 5) (board_world 0))) =
    mkTreeComponent (values (self (board_world 0))) 5.
Proof.
  split.
  - apply (proj2 (proj2 (proj2
             (mouse_up_selects_and_toggles python_recursion_limit (board_world 0) 1)))
             board).
    + repeat constructor.
    + vm_compute. lia.
    + vm_compute. split; [discriminate | reflexivity].
  - apply (proj1 (proj2
             (mouse_up_selects_and_toggles python_recursion_limit (board_world 0) 5))).
Defined.

(** C6 as stated fails: one visible element whose payload is drawn on two
    lines gives a stream of two lines. *)
Lemma two_line_payload_has_two_rows :
  _number_of_visible_elements python_recursion_limit
    (objects (world_of two_lines 0)) (self (world_of two_lines 0)) = Ok 1 /\
  result_map rows
    (styled_fragments (objects (world_of two_lines 0)) (self (world_of two_lines 0))) =
  Ok 2%nat.
Proof. vm_compute. split; reflexivity. Qed.

(** C6, amended, on the scenario. *)
Lemma rows_count_visible_witness :
  exists visible fragments,
    _traverse_visible python_recursion_limit board_store (values (self (board_world 0))) 0 =
      Ok visible /\
    _number_of_visible_elements python_recursion_limit board_store (self (board_world 0)) =
      Ok (Z.of_nat (List.length visible)) /\
    styled_fragments board_store (self (board_world 0)) = Ok fragments /\
    rows fragments = List.length visible.
Proof.
  apply (rows_count_visible python_recursion_limit "[" "]" "class:checkbox"
           board_store (self (board_world 0)) board).
  - reflexivity.
  - repeat constructor.
  - vm_compute. lia.
  - reflexivity.
  - reflexivity.
  - repeat constructor.
Defined.

(** C7 on the scenario. *)
Lemma rows_show_indent_and_marker_witness :
  styled_fragments board_store (self (board_world 0)) =
    Ok (with_handler python_recursion_limit
          (join_rows (spec_rows "[" "]" "class:checkbox" board_store 0 0
                        (visible_forest 0 board)))) /\
  (forall k level r,
      nth_error (visible_forest 0 board) k = Some (level, r) ->
      nth_error (spec_rows "[" "]" "class:checkbox" board_store 0 0
                   (visible_forest 0 board)) k =
      Some (repeat (EmptyString, "   "%string) level
            ++ [(EmptyString, "["%string)]
            ++ (if Z.eqb (Z.of_nat k) 0
                then [("[SetCursorPosition]"%string, EmptyString)] else [])
            ++ [(EmptyString,
                 match children (board_store r) with
                 | [] => " "%string
                 | _ :: _ => if expanded (board_store r) then "-"%string else "+"%string
                 end)]
            ++ [(EmptyString, "]"%string); ("class:checkbox"%string, " "%string)]
            ++ render (value (board_store r)))).
Proof.
  apply (rows_show_indent_and_marker python_recursion_limit "[" "]" "class:checkbox"
           board_store (self (board_world 0)) board).
  - reflexivity.
  - repeat constructor.
  - vm_compute. lia.
Defined.

(** C9 as stated fails: when the last payload's text ends with a line
    break, so does the stream. *)
Lemma trailing_break_ends_stream :
  result_map (fun fragments => last_char (text_of fragments))
    (styled_fragments (objects (world_of trailing_break 0))
       (self (world_of trailing_break 0))) =
  Ok (Some newline).
Proof. vm_compute. reflexivity. Qed.

(** C9, amended, on the scenario. *)
Lemma rendering_joins_rows_witness :
  exists fragments,
    styled_fragments board_store (self (board_world 0)) = Ok fragments /\
    fragments =
      with_handler python_recursion_limit
        (join_rows (spec_rows "[" "]" "class:checkbox" board_store 0 0
                      (visible_forest 0 board))) /\
    (board = [] -> fragments = []) /\
    (forall before level r,
        visible_forest 0 board = before ++ [(level, r)] ->
        (ends_in_newline (text_of fragments) <->
         ends_in_newline (plain_text (render (value (board_store r)))))).
Proof.
  apply (rendering_joins_rows python_recursion_limit "[" "]" "class:checkbox"
           board_store (self (board_world 0)) board).
  - reflexivity.
  - repeat constructor.
  - vm_compute. lia.
Defined.

(** * The scenarios of the specification *)

(** [[A(collapsed, [A1, A2]), B]] shows [A] and [B]. *)
Example scenario_visible :
  _traverse_visible python_recursion_limit board_store (map root board) 0 =
  Ok [(0, 0); (0, 3)]%nat.
Proof. reflexivity. Qed.

(** After enter on [A], its two children are shown one level deeper. *)
Example scenario_after_toggle :
  let w := snd (_handle_enter python_recursion_limit (board_world 0)) in
  _traverse_visible python_recursion_limit (objects w) (values (self w)) 0 =
  Ok [(0, 0); (1, 1); (1, 2); (0, 3)]%nat.
Proof. reflexivity. Qed.

(** The down key on the last row and the up key on the first row change
    nothing. *)
Example scenario_ends :
  snd (_down python_recursion_limit a_key_press (board_world 1)) = board_world 1 /\
  snd (_up a_key_press (board_world 0)) = board_world 0.
Proof. split; reflexivity. Qed.

(** A page of three lines from the first row stops at the last row. *)
Example scenario_page_down :
  snd (_pagedown python_recursion_limit a_page_key_press (board_world 0)) = board_world 1.
Proof. reflexivity. Qed.

(** The empty forest renders to the empty stream and has no selection. *)
Example scenario_empty :
  styled_fragments (objects (empty_world 0)) (self (empty_world 0)) = Ok [] /\
  get_selected_element python_recursion_limit (objects (empty_world 0))
    (self (empty_world 0)) = Ok None.
Proof. split; reflexivity. Qed.

(** The text of the rendered scenario, [A] selected. *)
Example scenario_text :
  result_map text_of (styled_fragments board_store (self (board_world 0))) =
  Ok (append "[+] A" (append nl "[ ] B")).
Proof. reflexivity. Qed.

(** * The helpers of the containers *)

Section IntersperseFacts.

Context {A : Type}.

Lemma list_times_single (item : A) (n : nat) :
  list_times [item] (Z.of_nat n) = repeat item n.
Proof.
  unfold list_times. rewrite Nat2Z.id.
  induction n as [|n IH]; [reflexivity | cbn; rewrite IH; reflexivity].
Qed.

Lemma put_every_second_repeat (item : A) (lst : list A) :
  forall x rest,
    lst = x :: rest ->
    let r := put_every_second (repeat item (Nat.pred (2 * List.length lst))) lst in
    List.length r = Nat.pred (2 * List.length lst) /\
    (forall k, nth_error r (2 * k) = nth_error lst k) /\
    (forall k, (2 * k + 1 < List.length r)%nat -> nth_error r (2 * k + 1) = Some item).
Proof.
  induction lst as [|y lst IH]; intros x rest E; [discriminate|].
  destruct lst as [|z lst'].
  - cbn. repeat split.
    + intros [|k]; cbn; [reflexivity|].
      replace (k + S (k + 0))%nat with (S (2 * k)) by lia. cbn.
      destruct k; reflexivity.
    + intros k Hk. cbn in Hk. lia.
  - specialize (IH z lst' eq_refl). cbn zeta in IH.
    destruct IH as (Hlen & Heven & Hodd).
    replace (Nat.pred (2 * List.length (y :: z :: lst')))
      with (S (S (Nat.pred (2 * List.length (z :: lst'))))) by (cbn [List.length]; lia).
    cbn [repeat put_every_second]. cbv zeta.
    set (r := put_every_second (repeat item (Nat.pred (2 * List.length (z :: lst'))))
                (z :: lst')) in *.
    repeat split.
    + cbn [List.length]. rewrite Hlen. reflexivity.
    + intros [|k]; [reflexivity|].
      replace (2 * S k)%nat with (S (S (2 * k))) by lia.
      cbn [nth_error]. apply Heven.
    + intros [|k] Hk; [reflexivity|].
      replace (2 * S k + 1)%nat with (S (S (2 * k + 1))) by lia.
      cbn [nth_error]. apply Hodd. cbn [List.length] in Hk. lia.
Qed.

(** X12.  [_intersperse] never raises.  Its result has the elements of the list
    at the even positions, in order, and the item at every odd position in
    between; the empty list stays empty. *)
Theorem intersperse_places_the_item (lst : list A) (item : A) :
  exists r,
    _intersperse lst item = Py.Return r /\
    List.length r = Nat.pred (2 * List.length lst) /\
    (forall k, nth_error r (2 * k) = nth_error lst k) /\
    (forall k, (2 * k + 1 < List.length r)%nat -> nth_error r (2 * k + 1) = Some item).
Proof.
  unfold _intersperse, assign_every_second.
  destruct lst as [|x rest].
  - exists []. cbn. repeat split.
    + intros k. destruct (2 * k)%nat; destruct k; reflexivity.
    + intros k Hk. cbn in Hk. lia.
  - replace (Z.of_nat (List.length (x :: rest)) * 2 - 1)
      with (Z.of_nat (Nat.pred (2 * List.length (x :: rest)))) by (cbn [List.length]; lia).
    rewrite list_times_single, repeat_length.
    assert (E : Nat.eqb (List.length (x :: rest))
                  (Nat.div2 (S (Nat.pred (2 * List.length (x :: rest))))) = true).
    { apply Nat.eqb_eq. cbn [List.length].
      replace (S (Nat.pred (2 * S (List.length rest)))) with (2 * S (List.length rest))%nat by lia.
      rewrite Nat.div2_double. reflexivity. }
    rewrite E. eexists. split; [reflexivity|].
    exact (put_every_second_repeat item (x :: rest) x rest eq_refl).
Qed.

End IntersperseFacts.

(** * [text_max_length] *)

Lemma substring_length (text : string) :
  forall n, String.length (substring 0 n text) = Nat.min n (String.length text).
Proof.
  induction text as [|c text IH]; intros [|n]; cbn; try reflexivity.
  rewrite IH. reflexivity.
Qed.

Lemma append_length (a b : string) :
  String.length (append a b) = (String.length a + String.length b)%nat.
Proof. induction a as [|c a IH]; cbn; [reflexivity | rewrite IH; reflexivity]. Qed.

Lemma slice_until_length (text : string) (stop : Z) :
  py_len (slice_until text stop) =
  if Z.ltb stop 0 then Z.max 0 (stop + py_len text) else Z.min stop (py_len text).
Proof.
  unfold slice_until, py_len. rewrite substring_length.
  destruct (Z.ltb_spec stop 0); lia.
Qed.

(** X13.  The result of [text_max_length] is no longer than [max] exactly when
    the text already fits or [max] is at least 3, the length of the dots;
    below that a text that is too long comes back longer than [max]. *)
Theorem text_max_length_fits (text : string) (max : Z) :
  py_len (text_max_length text max) <= max <-> (py_len text <= max \/ 3 <= max).
Proof.
  unfold text_max_length.
  destruct (Z.gtb_spec (py_len text) max) as [Hlong | Hfits]; [|lia].
  unfold py_len at 1. rewrite append_length, Nat2Z.inj_add.
  fold (py_len (slice_until text (max - 3))). rewrite slice_until_length.
  cbn [String.length]. destruct (Z.ltb_spec (max - 3) 0); lia.
Qed.

(** X14.  A text longer than [max], with [max] at least 3, is cut to its first
    [max - 3] characters followed by three dots, [max] characters in all; a
    text that fits is returned as it is. *)
Theorem text_max_length_cuts (text : string) (max : Z) :
  (3 <= max < py_len text ->
   text_max_length text max = append (substring 0 (Z.to_nat (max - 3)) text) "..." /\
   py_len (text_max_length text max) = max) /\
  (py_len text <= max -> text_max_length text max = text).
Proof.
  unfold text_max_length. split.
  - intros Hmax. destruct (Z.gtb_spec (py_len text) max) as [_ | Hfits]; [|lia].
    assert (E : slice_until text (max - 3) = substring 0 (Z.to_nat (max - 3)) text).
    { unfold slice_until. destruct (Z.ltb_spec (max - 3) 0); [lia|].
      rewrite Z.min_l by lia. reflexivity. }
    split; [rewrite E; reflexivity|].
    unfold py_len at 1. rewrite append_length, Nat2Z.inj_add.
    fold (py_len (slice_until text (max - 3))). rewrite slice_until_length.
    cbn [String.length]. destruct (Z.ltb_spec (max - 3) 0); lia.
  - intros Hfits. destruct (Z.gtb_spec (py_len text) max); [lia | reflexivity].
Qed.

(** * The loader of the dashboard *)

Module Loader.

Import Client.

Section LoaderFacts.

Context {number : Type}.

Implicit Types (x element : json number) (h : heap number)
  (f : forest (JiraSummaryDrawable number)).

Lemma transform_step depth (raw_data : json number) h :
  transform depth raw_data h =
  match depth with
  | O => L_lift (Py.Throw Py.RecursionError) h
  | S depth' =>
    L_bind (L_lift (iterate raw_data)) (fun elements => transform_loop depth' elements []) h
  end.
Proof.
  destruct depth as [|depth']; [reflexivity|].
  cbn [transform]. unfold L_bind at 1 7. unfold L_lift at 1 5.
  destruct (iterate raw_data) as [elements|e]; [|reflexivity].
  match goal with
  | |- ?loop elements [] h = _ =>
    enough (E : forall view_data h', loop elements view_data h' =
                                     transform_loop depth' elements view_data h')
      by apply E
  end.
  induction elements as [|element elements IH]; intros view_data h'; [reflexivity|].
  cbn [transform_loop]. unfold L_bind.
  destruct (L_lift (_issue_to_view element) h') as [[value|e] h1]; [|reflexivity].
  destruct (L_lift (subscript element "fields") h1) as [[fields|e] h2]; [|reflexivity].
  destruct (L_lift (get fields "subtasks" (JList [])) h2) as [[subtasks|e] h3]; [|reflexivity].
  destruct (transform depth' subtasks h3) as [[kids|e] h4]; [|reflexivity].
  destruct (new_element _ h4) as [[created|e] h5]; [|reflexivity].
  apply IH.
Qed.

Lemma lookup_height key (members : list (string * json number)) v :
  lookup key members = Some v ->
  (json_height v < json_height (JObject members))%nat.
Proof.
  unfold lookup. induction members as [|member members IH]; cbn [find]; [discriminate|].
  destruct (String.eqb (fst member) key).
  - intros E. injection E as <-. cbn. lia.
  - intros E. specialize (IH E). cbn in IH |- *. lia.
Qed.

Lemma subscript_height x key v :
  subscript x key = Py.Return v -> (json_height v < json_height x)%nat.
Proof.
  destruct x; try discriminate. cbn [subscript].
  destruct (lookup key members) as [v'|] eqn:E; [|discriminate].
  intros Ev. injection Ev as <-. apply (lookup_height _ _ _ E).
Qed.

Lemma get_list_height x key v :
  get x key (JList []) = Py.Return v -> (json_height v <= json_height x)%nat.
Proof.
  destruct x; try discriminate. cbn [get].
  destruct (lookup key members) as [v'|] eqn:E; intros Ev; injection Ev as <-.
  - pose proof (lookup_height _ _ _ E). lia.
  - cbn. lia.
Qed.

Lemma stored_agree (s s' : store (JiraSummaryDrawable number)) f :
  stored s f -> (forall r, In r (refs_of f) -> s' r = s r) -> stored s' f.
Proof.
  unfold stored, refs_of. rewrite !Forall_forall. intros Hs Hsame n Hn.
  rewrite Hsame; [apply Hs; exact Hn | apply in_map; exact Hn].
Qed.

Lemma json_height_cons x (items : list (json number)) :
  json_height (JList (x :: items)) =
  Nat.max (S (json_height x)) (json_height (JList items)).
Proof.
  change (json_height (JList (x :: items)))
    with (S (Nat.max (json_height x)
               (fold_right (fun v m => Nat.max (json_height v) m) O items))).
  change (json_height (JList items))
    with (S (fold_right (fun v m => Nat.max (json_height v) m) O items)).
  lia.
Qed.

Lemma json_height_items (items : list (json number)) depth :
  (json_height (JList items) <= S depth)%nat ->
  Forall (fun x => (json_height x <= depth)%nat) items.
Proof.
  induction items as [|x items IH]; intros Hh; constructor.
  - cbn in Hh. lia.
  - apply IH. cbn in Hh |- *. lia.
Qed.

Lemma transform_loop_builds depth' :
  (forall (items : list (json number)) h,
      Forall loads items ->
      (json_height (JList items) <= depth')%nat ->
      exists f h',
        transform depth' (JList items) h = (Py.Return (map root f), h') /\
        Forall2 mirrors items f /\ builds h h' f /\
        (height_forest f <= json_height (JList items))%nat) ->
  forall (items : list (json number)) view_data h,
    Forall loads items ->
    Forall (fun x => (json_height x <= depth')%nat) items ->
    exists f h',
      transform_loop depth' items view_data h = (Py.Return (view_data ++ map root f), h') /\
      Forall2 mirrors items f /\ builds h h' f /\
      (height_forest f <= json_height (JList items))%nat.
Proof.
  intros IHd. induction items as [|element items IH]; intros view_data h Hloads Hheights.
  - exists [], h. cbn. rewrite app_nil_r.
    split; [reflexivity|]. split; [constructor|]. split; [|lia].
    split; [constructor|]. split; [reflexivity|]. split; [intros r []|].
    split; [reflexivity | lia].
  - inversion Hloads as [|? ? Helement Hitems]; subst.
    inversion Hheights as [|? ? Hhe Hhi]; subst.
    inversion Helement as [? fields built subs Hbuilt Hfields Hget Hsubs]; subst.
    pose proof (subscript_height _ _ _ Hfields) as Hhf.
    pose proof (get_list_height _ _ _ Hget) as Hhs.
    destruct (IHd subs h Hsubs ltac:(lia))
      as (fc & h1 & Hrun1 & Hmir1 & (Hst1 & Hsep1 & Hrefs1 & Hold1 & Hle1) & Hheight1).
    set (t := Node (next h1) (mkJiraSummaryDrawable built) fc false).
    set (h2 := mkHeap
                 (fun r => if Nat.eqb r (next h1)
                           then mkTreeElement (mkJiraSummaryDrawable built) (map root fc) false
                           else cells h1 r)
                 (S (next h1))).
    destruct (IH (view_data ++ [next h1]) h2 Hitems Hhi)
      as (fr & h3 & Hrun3 & Hmir3 & (Hst3 & Hsep3 & Hrefs3 & Hold3 & Hle3) & Hheight3).
    unfold h2 in Hrefs3, Hold3, Hle3. cbn [next cells] in Hrefs3, Hold3, Hle3.
    exists (t :: fr), h3. split; [|split; [|split]].
    + cbn [transform_loop]. unfold L_bind, L_lift, _issue_to_view.
      rewrite Hbuilt. cbn [outcome_bind]. rewrite Hfields, Hget, Hrun1.
      unfold new_element. fold h2. rewrite Hrun3.
      rewrite <- app_assoc. reflexivity.
    + constructor; [|exact Hmir3]. econstructor; eassumption.
    + assert (Hh2 : forall r, In r (refs_of fc) -> cells h3 r = cells h1 r).
      { intros r Hr. pose proof (Hrefs1 r Hr). rewrite Hold3 by lia.
        cbn. destruct (Nat.eqb_spec r (next h1)); [lia | reflexivity]. }
      repeat split.
      * apply stored_cons. split; [|split].
        -- cbn [root t]. rewrite Hold3 by lia. cbn. rewrite Nat.eqb_refl. reflexivity.
        -- cbn [kids t]. apply (stored_agree (cells h1)); assumption.
        -- exact Hst3.
      * unfold separate in *. rewrite distinct_NoDup in *.
        rewrite refs_of_cons. cbn [root kids t]. constructor.
        -- intros Hin. apply in_app_or in Hin. destruct Hin as [Hin | Hin].
           ++ pose proof (Hrefs1 _ Hin). lia.
           ++ pose proof (Hrefs3 _ Hin). lia.
        -- apply NoDup_app; try assumption.
           intros r Hc Hr. pose proof (Hrefs1 _ Hc). pose proof (Hrefs3 _ Hr). lia.
      * rewrite refs_of_cons in H. cbn [root kids t] in H.
        destruct H as [<- | Hin]; [lia|].
        apply in_app_or in Hin. destruct Hin as [Hin | Hin].
        -- pose proof (Hrefs1 _ Hin). lia.
        -- pose proof (Hrefs3 _ Hin). lia.
      * rewrite refs_of_cons in H. cbn [root kids t] in H.
        destruct H as [<- | Hin]; [lia|].
        apply in_app_or in Hin. destruct Hin as [Hin | Hin].
        -- pose proof (Hrefs1 _ Hin). lia.
        -- pose proof (Hrefs3 _ Hin). lia.
      * intros r Hr. rewrite Hold3 by lia. cbn.
        destruct (Nat.eqb_spec r (next h1)); [lia|]. apply Hold1. exact Hr.
      * lia.
    + rewrite height_forest_cons, json_height_cons. cbn [kids t]. lia.
Qed.

(** X15.  For a list of issues that carry the summary fields, sub-tasks
    included, and within the recursion limit, [_transform_to_view_data]
    returns the roots of a forest built of new objects: one collapsed tree
    per issue, whose payload is the issue's summary and whose children are
    the trees of its sub-tasks, no object at two places, and every object
    that existed before as it was. *)
Theorem transform_builds_a_separate_forest depth :
  forall (items : list (json number)) h,
    Forall loads items ->
    (json_height (JList items) <= depth)%nat ->
    exists f h',
      _transform_to_view_data depth (JList items) h = (Py.Return (map root f), h') /\
      Forall2 mirrors items f /\
      builds h h' f /\
      (height_forest f <= json_height (JList items))%nat.
Proof.
  unfold _transform_to_view_data.
  induction depth as [|depth IH]; intros items h Hloads Hheight.
  - cbn in Hheight. lia.
  - rewrite transform_step. unfold L_bind, L_lift. cbn [iterate].
    destruct (transform_loop_builds depth IH items [] h Hloads
                (json_height_items items depth Hheight))
      as (f & h' & Hrun & Hrest).
    exists f, h'. split; [exact Hrun | exact Hrest].
Qed.

Lemma mirrors_collapsed (items : list (json number)) f :
  Forall2 mirrors items f -> Forall (fun t => is_expanded t = false) f.
Proof.
  induction 1 as [|element t items f Hm _ IH]; constructor; [|exact IH].
  inversion Hm; reflexivity.
Qed.

(** X16.  When the response holds a list of issues that load, [load] returns and
    the tree then has the built forest as its roots, the selected index 0
    and exactly one visible row per issue of the response, every sub-task
    hidden. *)
Theorem load_shows_one_row_per_issue recursion_limit (data : json number)
  (items : list (json number)) (d : dashboard number) :
  subscript data "issues" = Py.Return (JList items) ->
  Forall loads items ->
  (json_height (JList items) < recursion_limit)%nat ->
  exists f d',
    load recursion_limit data d = (Py.Return tt, d') /\
    Forall2 mirrors items f /\
    builds (memory d) (memory d') f /\
    represents (mkWorld (cells (memory d')) (board_tree d')) f /\
    (height_forest f < recursion_limit)%nat /\
    _selected_index (board_tree d') = 0 /\
    _traverse_visible recursion_limit (cells (memory d')) (values (board_tree d')) 0 =
      Ok (map (fun t => (O, root t)) f) /\
    _number_of_visible_elements recursion_limit (cells (memory d')) (board_tree d') =
      Ok (Z.of_nat (List.length items)).
Proof.
  intros Hissues Hloads Hheight.
  destruct (transform_builds_a_separate_forest recursion_limit items (memory d) Hloads
              ltac:(lia))
    as (f & h' & Hrun & Hmir & Hbuilt & Hhf).
  pose proof Hbuilt as (Hst & Hsep & _).
  exists f. eexists. split.
  - unfold load, L_bind, L_lift. rewrite Hissues, Hrun. reflexivity.
  - cbn [memory board_tree].
    assert (Ht : _traverse_visible recursion_limit (cells h') (map root f) 0 =
                 Ok (map (fun t => (O, root t)) f)).
    { unfold _traverse_visible. rewrite traverse_stored by (assumption || lia).
      rewrite (visible_all_collapsed f 0 (mirrors_collapsed items f Hmir)). reflexivity. }
    unfold set_values, bind, set_values_field, set_selected_index.
    cbn [snd self objects values _selected_index].
    split; [exact Hmir|]. split; [exact Hbuilt|].
    split; [repeat split; assumption|]. split; [lia|]. split; [reflexivity|].
    split; [exact Ht|].
    unfold _number_of_visible_elements. cbn [values]. rewrite Ht. cbn [result_map result_bind].
    rewrite length_map, (Forall2_length Hmir). reflexivity.
Qed.

(** Whatever the input, the transformation only creates objects. *)
Lemma transform_keeps_objects depth :
  forall (raw_data : json number) h o h',
    transform depth raw_data h = (o, h') ->
    (next h <= next h')%nat /\
    (forall r, (r < next h)%nat -> cells h' r = cells h r).
Proof.
  induction depth as [|depth IH]; intros raw_data h o h' Hrun.
  - cbn in Hrun. injection Hrun as _ <-. split; [lia | reflexivity].
  - rewrite transform_step in Hrun. unfold L_bind at 1 in Hrun. unfold L_lift at 1 in Hrun.
    destruct (iterate raw_data) as [elements|e];
      [|injection Hrun as _ <-; split; [lia | reflexivity]].
    revert h o h' Hrun. generalize (@nil ref) as view_data.
    induction elements as [|element elements IHl]; intros view_data h o h' Hrun.
    + cbn in Hrun. injection Hrun as _ <-. split; [lia | reflexivity].
    + cbn [transform_loop] in Hrun. unfold L_bind, L_lift in Hrun.
      destruct (_issue_to_view element) as [value|e];
        [|injection Hrun as _ <-; split; [lia | reflexivity]].
      destruct (subscript element "fields") as [fields|e];
        [|injection Hrun as _ <-; split; [lia | reflexivity]].
      destruct (get fields "subtasks" (JList [])) as [subtasks|e];
        [|injection Hrun as _ <-; split; [lia | reflexivity]].
      destruct (transform depth subtasks h) as [[kids|e] h1] eqn:Hkids;
        pose proof (IH _ _ _ _ Hkids) as [Hle1 Hold1];
        [|injection Hrun as _ <-; split; assumption].
      unfold new_element in Hrun.
      apply IHl in Hrun. cbn [next cells] in Hrun. destruct Hrun as [Hle2 Hold2].
      split; [lia|].
      intros r Hr. rewrite Hold2 by lia.
      destruct (Nat.eqb_spec r (next h1)); [lia|]. apply Hold1. exact Hr.
Qed.

(** X17.  Whatever the response, [load] changes no object that existed before,
    so a forest that was stored is still stored; and when [load] raises,
    the tree keeps its roots and its selected index. *)
Theorem load_keeps_what_is_shown recursion_limit (data : json number)
  (d : dashboard number) :
  let d' := snd (load recursion_limit data d) in
  (forall r, (r < next (memory d))%nat -> cells (memory d') r = cells (memory d) r) /\
  (forall f,
      stored (cells (memory d)) f ->
      (forall r, In r (refs_of f) -> (r < next (memory d))%nat) ->
      stored (cells (memory d')) f) /\
  (forall e, fst (load recursion_limit data d) = Py.Throw e ->
             board_tree d' = board_tree d).
Proof.
  cbv zeta.
  assert (Hold : forall r, (r < next (memory d))%nat ->
            cells (memory (snd (load recursion_limit data d))) r = cells (memory d) r).
  { intros r Hr. unfold load, L_bind, L_lift, _transform_to_view_data.
    destruct (subscript data "issues") as [issues|e]; [|reflexivity].
    destruct (transform recursion_limit issues (memory d)) as [[view_data|e] h] eqn:Hrun;
      pose proof (transform_keeps_objects _ _ _ _ _ Hrun) as [_ Hkeep];
      cbn [snd memory]; apply Hkeep; exact Hr. }
  split; [exact Hold|]. split.
  - intros f Hs Hrefs. apply (stored_agree (cells (memory d))); [exact Hs|].
    intros r Hr. apply Hold, Hrefs, Hr.
  - intros e. unfold load, L_bind, L_lift.
    destruct (subscript data "issues") as [issues|e']; [|reflexivity].
    destruct (_transform_to_view_data recursion_limit issues (memory d)) as [[view_data|e'] h];
      [discriminate | reflexivity].
Qed.

(** X18.  [show_issue_details] reads the id of the issue at the selected row;
    with the selected index outside the visible sequence, as on the empty
    tree the dashboard starts with, reading it raises [AttributeError]. *)
Theorem selected_issue_id_needs_a_selection recursion_limit (d : dashboard number) f :
  represents (mkWorld (cells (memory d)) (board_tree d)) f ->
  (height_forest f < recursion_limit)%nat ->
  (selected_issue_id recursion_limit d = Raise AttributeError <->
   _selected_index (board_tree d) < 0 \/
   Z.of_nat (List.length (visible_forest 0 f)) <= _selected_index (board_tree d)) /\
  (forall level r,
      0 <= _selected_index (board_tree d) ->
      nth_error (visible_forest 0 f) (Z.to_nat (_selected_index (board_tree d))) =
        Some (level, r) ->
      selected_issue_id recursion_limit d = Ok (id (issue (value (cells (memory d) r))))).
Proof.
  intros Hw Hh. unfold selected_issue_id.
  pose proof (selected_represented recursion_limit _ f Hw Hh) as Hsel.
  cbn [objects self] in Hsel. rewrite Hsel. cbn [result_bind].
  set (i := _selected_index (board_tree d)). set (vis := visible_forest 0 f).
  split.
  - destruct (Z.ltb_spec i 0) as [Hneg | Hpos].
    + rewrite find_loop_out_of_range by (left; exact Hneg). split; [lia | reflexivity].
    + destruct (Z.ltb_spec i (Z.of_nat (List.length vis))) as [Hin | Hout].
      * destruct (find_loop_in_range vis i (conj Hpos Hin)) as (l & r & _ & Hfind).
        rewrite Hfind. split; [discriminate | lia].
      * rewrite find_loop_out_of_range by (right; exact Hout).
        split; [right; exact Hout | reflexivity].
  - intros level r Hpos Hnth.
    assert (Hlt : (Z.to_nat i < List.length vis)%nat) by (apply nth_error_Some; congruence).
    destruct (find_loop_in_range vis i ltac:(lia)) as (l & r' & Hnth' & Hfind).
    rewrite Hnth in Hnth'. injection Hnth' as _ <-. rewrite Hfind. reflexivity.
Qed.

Lemma build_summary_key element (built : JiraIssue number) :
  build_summary_jira_issue element = Py.Return built ->
  subscript element "key" = Py.Return (id built).
Proof.
  unfold build_summary_jira_issue.
  repeat match goal with
         | |- outcome_bind ?o _ = _ -> _ =>
           destruct o; cbn [outcome_bind]; [|discriminate]
         end.
  intros E. injection E as <-. reflexivity.
Qed.

(** X19.  After the load of a response whose first issue has the key [key], the
    id that [show_issue_details] reads is that key; after the load of a
    response without issues reading it raises [AttributeError]. *)
Theorem load_selects_the_first_issue recursion_limit (data : json number)
  (items : list (json number)) (d : dashboard number) :
  subscript data "issues" = Py.Return (JList items) ->
  Forall loads items ->
  (json_height (JList items) < recursion_limit)%nat ->
  selected_issue_id recursion_limit (snd (load recursion_limit data d)) =
  match items with
  | [] => Raise AttributeError
  | first :: _ =>
    match subscript first "key" with
    | Py.Return key => Ok key
    | Py.Throw _ => Raise AttributeError
    end
  end.
Proof.
  intros Hissues Hloads Hheight.
  destruct (load_shows_one_row_per_issue recursion_limit data items d Hissues Hloads Hheight)
    as (f & d' & Hrun & Hmir & Hbuilt & Hw & Hhf & Hsel & Hvis & _).
  rewrite Hrun. cbn [snd]. unfold selected_issue_id, get_selected_element,
    _find_expanded_by_index. rewrite Hsel, Hvis. cbn [result_map result_bind].
  destruct Hmir as [|first t items f Hfirst Hrest]; [reflexivity|].
  cbn [map find_loop Z.eqb].
  inversion Hfirst as [? fields built subs r cs Hb Hf Hg Hs]; subst.
  rewrite (build_summary_key _ _ Hb). cbn [root].
  destruct Hbuilt as (Hst & _). apply stored_cons in Hst. destruct Hst as (Hroot & _).
  cbn [root] in Hroot. rewrite Hroot. reflexivity.
Qed.

End LoaderFacts.

End Loader.

(** * The further properties on concrete components *)

Lemma presses_keep_selection_in_range_witness :
  exists i,
    press_all python_recursion_limit
      [(key_down, a_key_press); (key_pagedown, a_page_key_press); (key_up, a_key_press)]
      (board_world 0) =
      (Ok tt,
       mkWorld (objects (board_world 0)) (mkTreeComponent (values (self (board_world 0))) i)) /\
    0 <= i < Z.of_nat (List.length (visible_forest 0 board)).
Proof.
  apply (presses_keep_selection_in_range python_recursion_limit
           [(key_down, a_key_press); (key_pagedown, a_page_key_press); (key_up, a_key_press)]
           (board_world 0) board).
  - reflexivity.
  - repeat constructor.
  - vm_compute. lia.
  - vm_compute. split; [discriminate | reflexivity].
Defined.

Lemma ends_stop_the_selection_witness :
  (_selected_index (self (board_world 1)) = Z.of_nat (List.length (visible_forest 0 board)) - 1 ->
   0 <= _selected_index (self (board_world 1)) ->
   _down python_recursion_limit a_key_press (board_world 1) = (Ok tt, board_world 1)) /\
  (_selected_index (self (board_world 1)) = 0 ->
   _up a_key_press (board_world 1) = (Ok tt, board_world 1)).
Proof.
  apply (ends_stop_the_selection python_recursion_limit (board_world 1) board a_key_press).
  - repeat constructor.
  - vm_compute. lia.
Defined.

Lemma selected_element_is_at_index_witness :
  (forall r,
      get_selected_element python_recursion_limit (objects (board_world 1))
        (self (board_world 1)) = Ok (Some r) <->
      0 <= _selected_index (self (board_world 1)) /\
      exists d,
        nth_error (visible_forest 0 board)
          (Z.to_nat (_selected_index (self (board_world 1)))) = Some (d, r)) /\
  (get_selected_element python_recursion_limit (objects (board_world 1))
     (self (board_world 1)) = Ok None <->
   _selected_index (self (board_world 1)) < 0 \/
   Z.of_nat (List.length (visible_forest 0 board)) <= _selected_index (self (board_world 1))).
Proof.
  apply (selected_element_is_at_index python_recursion_limit (board_world 1) board).
  - repeat constructor.
  - vm_compute. lia.
Defined.

Lemma handle_enter_raises_without_selection_witness :
  _handle_enter python_recursion_limit (board_world 2) = (Raise AttributeError, board_world 2).
Proof.
  apply (handle_enter_raises_without_selection python_recursion_limit (board_world 2) board).
  - repeat constructor.
  - vm_compute. lia.
  - right. vm_compute. discriminate.
Defined.

Lemma mouse_up_outside_raises_witness :
  mouse_handler python_recursion_limit (mkMouseEvent MOUSE_UP 7) (board_world 0) =
  (Raise AttributeError,
   mkWorld (objects (board_world 0)) (mkTreeComponent (values (self (board_world 0))) 7)).
Proof.
  apply (mouse_up_outside_raises python_recursion_limit (board_world 0) board 7).
  - repeat constructor.
  - vm_compute. lia.
  - right. vm_compute. discriminate.
Defined.

Lemma toggle_splices_the_children_witness :
  exists d r pre post below w',
    List.length pre = Z.to_nat (_selected_index (self (board_world 0))) /\
    _traverse_visible python_recursion_limit (objects (board_world 0))
      (children (objects (board_world 0) r)) (S d) = Ok below /\
    _traverse_visible python_recursion_limit (objects (board_world 0))
      (values (self (board_world 0))) 0 =
      Ok (pre ++ (d, r) :: (if expanded (objects (board_world 0) r) then below else []) ++ post) /\
    _handle_enter python_recursion_limit (board_world 0) = (Ok tt, w') /\
    _traverse_visible python_recursion_limit (objects w') (values (self w')) 0 =
      Ok (pre ++ (d, r) :: (if expanded (objects (board_world 0) r) then [] else below) ++ post).
Proof.
  apply (toggle_splices_the_children python_recursion_limit (board_world 0) board).
  - repeat constructor.
  - vm_compute. lia.
  - vm_compute. split; [discriminate | reflexivity].
Defined.


Lemma set_values_selects_first_root_witness :
  exists w',
    set_values (map root board) (empty_world 5) = (Ok tt, w') /\
    get_selected_element python_recursion_limit (objects w') (self w') =
      Ok (option_map root (List.head board)) /\
    (board <> [] ->
     exists n,
       _number_of_visible_elements python_recursion_limit (objects w') (self w') = Ok n /\
       0 <= _selected_index (self w') < n).
Proof.
  apply (set_values_selects_first_root python_recursion_limit (empty_world 5) board).
  - repeat constructor.
  - vm_compute. lia.
Defined.

Lemma visible_count_bounds_witness :
  exists visible,
    _traverse_visible python_recursion_limit board_store (values (self (board_world 0))) 0 =
      Ok visible /\
    _number_of_visible_elements python_recursion_limit board_store (self (board_world 0)) =
      Ok (Z.of_nat (List.length visible)) /\
    (List.length (values (self (board_world 0))) <= List.length visible
     <= List.length (nodes_of board))%nat /\
    (Forall (fun r => expanded (board_store r) = false) (values (self (board_world 0))) ->
     visible = map (fun r => (O, r)) (values (self (board_world 0)))) /\
    (Forall (fun n => expanded (board_store (root n)) = true) (nodes_of board) ->
     map snd visible = refs_of board).
Proof.
  apply (visible_count_bounds python_recursion_limit board_store (self (board_world 0)) board).
  - reflexivity.
  - repeat constructor.
  - vm_compute. lia.
Defined.

Lemma page_is_repeated_step_witness :
  _pagedown python_recursion_limit
      (mkKeyPressEvent (Some (mkWindowRenderInfo [0; 1; 2]%nat))) (board_world 0) =
    press_all python_recursion_limit
      (repeat (key_down, a_key_press) (List.length [0; 1; 2]%nat)) (board_world 0) /\
  _pageup (mkKeyPressEvent (Some (mkWindowRenderInfo [0; 1; 2]%nat))) (board_world 0) =
    press_all python_recursion_limit
      (repeat (key_up, a_key_press) (List.length [0; 1; 2]%nat)) (board_world 0).
Proof.
  apply (page_is_repeated_step python_recursion_limit (board_world 0) board a_key_press
           (mkWindowRenderInfo [0; 1; 2]%nat)).
  - repeat constructor.
  - vm_compute. lia.
  - vm_compute. split; [discriminate | reflexivity].
Defined.

Lemma visible_sequence_shape_witness :
  exists visible,
    _traverse_visible python_recursion_limit (objects (board_world 0))
      (values (self (board_world 0))) 0 = Ok visible /\
    NoDup (map snd visible) /\
    List.head visible =
      option_map (fun r => (O, r)) (List.head (values (self (board_world 0)))) /\
    (forall i d r d' r',
        nth_error visible i = Some (d, r) ->
        nth_error visible (S i) = Some (d', r') ->
        (d' <= S d)%nat).
Proof.
  apply (visible_sequence_shape python_recursion_limit (board_world 0) board).
  - repeat constructor.
  - vm_compute. lia.
Defined.

(** * The loader on a concrete response *)

Module LoaderExamples.

Import Client LoaderScenario.

Lemma transform_builds_a_separate_forest_witness :
  exists f h',
    _transform_to_view_data python_recursion_limit (JList [story]) (memory at_start) =
      (Py.Return (map root f), h') /\
    Forall2 mirrors [story] f /\
    builds (memory at_start) h' f /\
    (height_forest f <= json_height (JList [story]))%nat.
Proof.
  apply (Loader.transform_builds_a_separate_forest python_recursion_limit [story]
           (memory at_start)).
  - repeat econstructor.
  - vm_compute. lia.
Defined.

Lemma load_shows_one_row_per_issue_witness :
  exists f d',
    load python_recursion_limit response at_start = (Py.Return tt, d') /\
    Forall2 mirrors [story] f /\
    builds (memory at_start) (memory d') f /\
    represents (mkWorld (cells (memory d')) (board_tree d')) f /\
    (height_forest f < python_recursion_limit)%nat /\
    _selected_index (board_tree d') = 0 /\
    _traverse_visible python_recursion_limit (cells (memory d')) (values (board_tree d')) 0 =
      Ok (map (fun t => (O, root t)) f) /\
    _number_of_visible_elements python_recursion_limit (cells (memory d')) (board_tree d') =
      Ok (Z.of_nat (List.length [story])).
Proof.
  apply (Loader.load_shows_one_row_per_issue python_recursion_limit response [story] at_start).
  - reflexivity.
  - repeat econstructor.
  - vm_compute. lia.
Defined.

Lemma selected_issue_id_needs_a_selection_witness :
  (selected_issue_id python_recursion_limit at_start = Raise AttributeError <->
   _selected_index (board_tree at_start) < 0 \/
   Z.of_nat (List.length (visible_forest 0 (@nil (tree (JiraSummaryDrawable Z)))))
   <= _selected_index (board_tree at_start)) /\
  (forall level r,
      0 <= _selected_index (board_tree at_start) ->
      nth_error (visible_forest 0 (@nil (tree (JiraSummaryDrawable Z))))
        (Z.to_nat (_selected_index (board_tree at_start))) = Some (level, r) ->
      selected_issue_id python_recursion_limit at_start =
      Ok (id (issue (value (cells (memory at_start) r))))).
Proof.
  apply (Loader.selected_issue_id_needs_a_selection python_recursion_limit at_start []).
  - repeat constructor.
  - vm_compute. lia.
Defined.

Lemma load_selects_the_first_issue_witness :
  selected_issue_id python_recursion_limit (snd (load python_recursion_limit response at_start)) =
  match [story] with
  | [] => Raise AttributeError
  | first :: _ =>
    match subscript first "key" with
    | Py.Return key => Ok key
    | Py.Throw _ => Raise AttributeError
    end
  end.
Proof.
  apply (Loader.load_selects_the_first_issue python_recursion_limit response [story] at_start).
  - reflexivity.
  - repeat econstructor.
  - vm_compute. lia.
Defined.

(** The loaded story is shown collapsed, with its key as the id to open. *)
Example loaded_story :
  let d := snd (load python_recursion_limit response at_start) in
  _traverse_visible python_recursion_limit (cells (memory d)) (values (board_tree d)) 0 =
    Ok [(0, 1)]%nat /\
  selected_issue_id python_recursion_limit d = Ok (JString "PJ-1").
Proof. split; reflexivity. Qed.

End LoaderExamples.
